(** * Verification of the ai-it-support-bot request pipeline

    Shallow embedding of the TypeScript sources:
    - [LRUCache] and [TokenBucketRateLimiter] and the [POST] handler of the
      answer route (src/unnamed/part_002),
    - [distinctDomainsOK], [clampAnswer] and the [AnswerSchema] checks
      (src/src/lib/answerSchema.ts),
    - the orchestration of [answerIssue] (src/src/lib/llm.ts),
    - [fetch_page], [shouldFilterUrl], [search_web] and [make_svg_diagram]
      (src/src/lib/tools.ts).

    A JavaScript [Map] is an association list in insertion order; strings
    are [String.string] with one [ascii] per UTF-16 code unit; numbers that
    are integral milliseconds are [Z]; token counts are [Q].  External
    collaborators (the OpenAI client, tool executions, the network, the
    HTML parser) are fields of an environment record, so every theorem
    about the orchestrator holds for every behaviour of them. *)

From Stdlib Require Import String Ascii List Bool ZArith QArith Qminmax Lia Lqa DecimalString.
Import ListNotations.
Open Scope string_scope.
Open Scope list_scope.
Open Scope Z_scope.

(* ------------------------------------------------------------------ *)
(** ** JavaScript [Map] with string keys *)

Module JSMap.

Definition t (A : Type) := list (string * A).

(** [m.get(k)] *)
Fixpoint get {A} (k : string) (m : t A) : option A :=
  match m with
  | [] => None
  | (k', v) :: m' => if String.eqb k' k then Some v else get k m'
  end.

Definition has {A} (k : string) (m : t A) : bool :=
  existsb (fun p => String.eqb (fst p) k) m.

(** [m.delete(k)] *)
Definition delete {A} (k : string) (m : t A) : t A :=
  List.filter (fun p => negb (String.eqb (fst p) k)) m.

(** [m.set(k, v)]: an existing key keeps its position, a new key goes last. *)
Definition set {A} (k : string) (v : A) (m : t A) : t A :=
  if has k m
  then List.map (fun p => if String.eqb (fst p) k then (k, v) else p) m
  else m ++ [(k, v)].

(** [m.keys().next().value] *)
Definition first_key {A} (m : t A) : option string :=
  match m with
  | [] => None
  | (k, _) :: _ => Some k
  end.

(** [m.size] *)
Definition size {A} (m : t A) : nat := length m.

Definition keys {A} (m : t A) : list string := List.map fst m.

End JSMap.

(* ------------------------------------------------------------------ *)
(** ** [LRUCache] (src/unnamed/part_002, lines 8-54) *)

Module LRU.

Section Cache.
Variable V : Type.

Record item := mkItem { value : V; timestamp : Z }.

Record LRUCache := mkCache {
  capacity : Z;
  cache : JSMap.t item;
  ttl : Z  (* milliseconds *)
}.

(** [new LRUCache(capacity, ttlHours)] *)
Definition new_cache (cap ttlHours : Z) : LRUCache :=
  mkCache cap [] (ttlHours * 60 * 60 * 1000).

Definition with_map (c : LRUCache) (m : JSMap.t item) : LRUCache :=
  mkCache (capacity c) m (ttl c).

(** [get(key)] at time [now] (= [Date.now()]) *)
Definition get (now : Z) (key : string) (c : LRUCache) : option V * LRUCache :=
  match JSMap.get key (cache c) with
  | None => (None, c)
  | Some it =>
      if Z.gtb (now - timestamp it) (ttl c)
      then (None, with_map c (JSMap.delete key (cache c)))
      else (Some (value it),
            with_map c (JSMap.set key it (JSMap.delete key (cache c))))
  end.

(** [set(key, value)] at time [now] *)
Definition set (now : Z) (key : string) (v : V) (c : LRUCache) : LRUCache :=
  let m1 := JSMap.delete key (cache c) in
  let m2 :=
    if Z.geb (Z.of_nat (JSMap.size m1)) (capacity c)
    then match JSMap.first_key m1 with
         | Some firstKey => JSMap.delete firstKey m1
         | None => m1
         end
    else m1 in
  with_map c (JSMap.set key (mkItem v now) m2).

(** [size()] *)
Definition size (c : LRUCache) : nat := JSMap.size (cache c).

(** A sequence of calls on one cache, each at its own clock reading. *)
Inductive op :=
| OpGet (now : Z) (key : string)
| OpSet (now : Z) (key : string) (v : V)
| OpSize.

Definition step (o : op) (c : LRUCache) : LRUCache :=
  match o with
  | OpGet now k => snd (get now k c)
  | OpSet now k v => set now k v c
  | OpSize => c
  end.

Fixpoint run (os : list op) (c : LRUCache) : LRUCache :=
  match os with
  | [] => c
  | o :: os' => run os' (step o c)
  end.

(** Inserting keys one after the other, each with its clock reading. *)
Fixpoint set_all (ins : list (Z * string)) (v : V) (c : LRUCache) : LRUCache :=
  match ins with
  | [] => c
  | (now, k) :: ins' => set_all ins' v (set now k v c)
  end.

End Cache.

Arguments mkItem {V}.
Arguments value {V}.
Arguments timestamp {V}.
Arguments mkCache {V}.
Arguments capacity {V}.
Arguments cache {V}.
Arguments ttl {V}.
Arguments new_cache {V}.
Arguments with_map {V}.
Arguments get {V}.
Arguments set {V}.
Arguments size {V}.
Arguments OpGet {V}.
Arguments OpSet {V}.
Arguments OpSize {V}.
Arguments step {V}.
Arguments run {V}.
Arguments set_all {V}.

End LRU.

(* ------------------------------------------------------------------ *)
(** ** [TokenBucketRateLimiter] (src/unnamed/part_002, lines 57-101)

    Token counts are JavaScript doubles; they are modelled as rationals.
    On the paths used below (no elapsed time) every operation is on small
    integers and [0 * refillRate], which doubles compute exactly. *)

Module RateLimit.

Record Bucket := mkBucket { tokens : Q; lastRefill : Z }.

Record TokenBucketRateLimiter := mkLimiter {
  buckets : JSMap.t Bucket;
  maxTokens : Q;
  refillRate : Q;      (* tokens per millisecond *)
  refillInterval : Z   (* milliseconds *)
}.

(** [new TokenBucketRateLimiter(maxTokens, refillIntervalMs)] *)
Definition new_limiter (maxT : Q) (refillIntervalMs : Z) : TokenBucketRateLimiter :=
  mkLimiter [] maxT (maxT / inject_Z refillIntervalMs)%Q refillIntervalMs.

Definition with_buckets (rl : TokenBucketRateLimiter) (bs : JSMap.t Bucket) :=
  mkLimiter bs (maxTokens rl) (refillRate rl) (refillInterval rl).

(** The bucket [consume] reads: the stored one, or a full fresh one. *)
Definition current_bucket (now : Z) (ip : string) (rl : TokenBucketRateLimiter) : Bucket :=
  match JSMap.get ip (buckets rl) with
  | Some b => b
  | None => mkBucket (maxTokens rl) now
  end.

(** Lines 74-78: refill, capped at [maxTokens], and stamp with [now]. *)
Definition refill (now : Z) (rl : TokenBucketRateLimiter) (b : Bucket) : Bucket :=
  let timePassed := now - lastRefill b in
  let tokensToAdd := (inject_Z timePassed * refillRate rl)%Q in
  mkBucket (Qminmax.Qmin (maxTokens rl) (tokens b + tokensToAdd)%Q) now.

(** [consume(ip)] at time [now] *)
Definition consume (now : Z) (ip : string) (rl : TokenBucketRateLimiter)
  : bool * TokenBucketRateLimiter :=
  let bucket := refill now rl (current_bucket now ip rl) in
  if Qle_bool 1%Q (tokens bucket)
  then (true, with_buckets rl
                (JSMap.set ip (mkBucket (tokens bucket - 1)%Q (lastRefill bucket)) (buckets rl)))
  else (false, with_buckets rl (JSMap.set ip bucket (buckets rl))).

(** [getRemainingTokens(ip)] at time [now] *)
Definition getRemainingTokens (now : Z) (ip : string) (rl : TokenBucketRateLimiter) : Q :=
  match JSMap.get ip (buckets rl) with
  | None => maxTokens rl
  | Some b => tokens (refill now rl b)
  end.

(** [n] calls of [consume(ip)] at the same clock reading. *)
Fixpoint consume_n (n : nat) (now : Z) (ip : string) (rl : TokenBucketRateLimiter)
  : list bool * TokenBucketRateLimiter :=
  match n with
  | O => ([], rl)
  | S n' =>
      let (r, rl') := consume now ip rl in
      let (rs, rl'') := consume_n n' now ip rl' in
      (r :: rs, rl'')
  end.

(** The admission results of [consume_n] on one bucket at a fixed clock
    reading: no time passes, so the refill adds [0 * refillRate]. *)
Fixpoint tokens_run (n : nat) (mx rate t : Q) : list bool :=
  match n with
  | O => []
  | S n' =>
      let t' := Qminmax.Qmin mx (t + inject_Z 0 * rate)%Q in
      if Qle_bool 1%Q t' then true :: tokens_run n' mx rate (t' - 1)%Q
      else false :: tokens_run n' mx rate t'
  end.

(** The route's limiter: 10 tokens per 10 minutes. *)
Definition rateLimiter : TokenBucketRateLimiter := new_limiter 10 (10 * 60 * 1000).

End RateLimit.

(* ------------------------------------------------------------------ *)
(** ** String helpers (JavaScript [String.prototype] methods) *)

Module JSString.

(** [s.substring(0, n)] *)
Definition prefix_upto (n : nat) (s : string) : string := substring 0 n s.

(** Characters removed by [trim()] (those within one byte). *)
Definition is_ws (c : ascii) : bool :=
  let n := nat_of_ascii c in
  (Nat.eqb n 9 || Nat.eqb n 10 || Nat.eqb n 11 || Nat.eqb n 12 || Nat.eqb n 13
   || Nat.eqb n 32 || Nat.eqb n 160)%bool.

(** Leading whitespace removed. *)
Fixpoint ltrim (s : string) : string :=
  match s with
  | EmptyString => EmptyString
  | String c s' => if is_ws c then ltrim s' else s
  end.

(** Trailing whitespace removed. *)
Fixpoint rtrim (s : string) : string :=
  match s with
  | EmptyString => EmptyString
  | String c s' =>
      match rtrim s' with
      | EmptyString => if is_ws c then EmptyString else String c EmptyString
      | r => String c r
      end
  end.

(** [s.trim()] *)
Definition trim (s : string) : string := rtrim (ltrim s).

(** Number of leading whitespace characters. *)
Fixpoint leading_ws (s : string) : nat :=
  match s with
  | EmptyString => O
  | String c s' => if is_ws c then S (leading_ws s') else O
  end.

(** [s.startsWith(p)] *)
Definition startsWith (p s : string) : bool := String.prefix p s.

Definition lower_char (c : ascii) : ascii :=
  let n := nat_of_ascii c in
  if (Nat.leb 65 n && Nat.leb n 90)%bool then ascii_of_nat (n + 32) else c.

(** [s.toLowerCase()] on one-byte characters *)
Fixpoint toLowerCase (s : string) : string :=
  match s with
  | EmptyString => EmptyString
  | String c s' => String (lower_char c) (toLowerCase s')
  end.

(** [s.split(sep)] for a one-character separator *)
Fixpoint split (sep : ascii) (s : string) : list string :=
  match s with
  | EmptyString => [EmptyString]
  | String c s' =>
      if Ascii.eqb c sep then EmptyString :: split sep s'
      else match split sep s' with
           | [] => [String c EmptyString]
           | w :: ws => String c w :: ws
           end
  end.

(** [parts.join(sep)] *)
Fixpoint join (sep : string) (l : list string) : string :=
  match l with
  | [] => EmptyString
  | [w] => w
  | w :: ws => (w ++ sep ++ join sep ws)%string
  end.

(** [parts.slice(-n)] *)
Definition slice_last {A} (n : nat) (l : list A) : list A := skipn (length l - n) l.

Fixpoint take_until (stop : ascii -> bool) (s : string) : string :=
  match s with
  | EmptyString => EmptyString
  | String c s' => if stop c then EmptyString else String c (take_until stop s')
  end.

Fixpoint drop_while (p : ascii -> bool) (s : string) : string :=
  match s with
  | EmptyString => EmptyString
  | String c s' => if p c then drop_while p s' else s
  end.

(** The part after the last occurrence of [c] (the whole string if none). *)
Definition after_last (c : ascii) (s : string) : string :=
  last (split c s) s.

Definition repeat_char (n : nat) (c : ascii) : string :=
  string_of_list_ascii (List.repeat c n).

Definition dq : string := String "034"%char EmptyString.

End JSString.

(* ------------------------------------------------------------------ *)
(** ** [new URL(s).hostname]

    [URL] is the platform's WHATWG URL parser, not code of this repository.
    This is a reduced model of it for absolute URLs: a scheme (a letter then
    letters, digits, [+], [-], [.]) and [:]; for the special schemes the
    slashes after [:] are skipped and an authority is required; the
    authority runs to the first [/], [\], [?] or [#]; user info (up to the
    last [@]) and the port are dropped; a host holding a forbidden code
    point is refused; hosts of special schemes are lower-cased.  [None] is
    a thrown [TypeError]. *)

Module URL.
Import JSString.

Definition is_alpha (c : ascii) : bool :=
  let n := nat_of_ascii c in
  ((Nat.leb 65 n && Nat.leb n 90) || (Nat.leb 97 n && Nat.leb n 122))%bool.

Definition is_digit (c : ascii) : bool :=
  let n := nat_of_ascii c in (Nat.leb 48 n && Nat.leb n 57)%bool.

Definition is_scheme_char (c : ascii) : bool :=
  (is_alpha c || is_digit c || Ascii.eqb c "+" || Ascii.eqb c "-" || Ascii.eqb c ".")%bool.

Fixpoint scheme_rest (s : string) : option (string * string) :=
  match s with
  | EmptyString => None
  | String c s' =>
      if Ascii.eqb c ":" then Some (EmptyString, s')
      else if is_scheme_char c then
        match scheme_rest s' with
        | Some (sc, r) => Some (String c sc, r)
        | None => None
        end
      else None
  end.

(** [scheme:rest] with a scheme starting with a letter. *)
Definition split_scheme (s : string) : option (string * string) :=
  match s with
  | String c _ => if is_alpha c then scheme_rest s else None
  | EmptyString => None
  end.

Definition special_schemes : list string := ["http"; "https"; "ws"; "wss"; "ftp"; "file"].

Definition is_forbidden_host_char (c : ascii) : bool :=
  let n := nat_of_ascii c in
  (Nat.leb n 32 || Nat.eqb n 127
   || existsb (Ascii.eqb c) (list_ascii_of_string "#%/:<>?@[\]^|"))%bool.

Definition authority_end (c : ascii) : bool :=
  (Ascii.eqb c "/" || Ascii.eqb c "\" || Ascii.eqb c "?" || Ascii.eqb c "#")%bool.

(** Host of an authority: user info and port dropped. *)
Definition host_of_authority (auth : string) : string :=
  let hostport := after_last "@" auth in
  match hostport with
  | String "[" _ => (take_until (Ascii.eqb "]") hostport ++ "]")%string
  | _ => take_until (Ascii.eqb ":") hostport
  end.

Definition url_hostname (input : string) : option string :=
  match split_scheme (trim input) with
  | None => None
  | Some (scheme, rest) =>
      let scheme := toLowerCase scheme in
      if existsb (String.eqb scheme) special_schemes then
        let rest' := drop_while (fun c => Ascii.eqb c "/" || Ascii.eqb c "\")%bool rest in
        let host := host_of_authority (take_until authority_end rest') in
        if String.eqb host EmptyString then
          if String.eqb scheme "file" then Some EmptyString else None
        else if existsb is_forbidden_host_char (list_ascii_of_string host)
             && negb (String.prefix "[" host) then None
        else Some (toLowerCase host)
      else
        if String.prefix "//" rest then
          let host := host_of_authority (take_until authority_end (substring 2 (String.length rest) rest)) in
          if existsb is_forbidden_host_char (list_ascii_of_string host)
             && negb (String.prefix "[" host) then None
          else Some host
        else Some EmptyString
  end.

(** [z.string().url()]: the string is accepted when [new URL] succeeds. *)
Definition url_ok (s : string) : bool :=
  match url_hostname s with Some _ => true | None => false end.

End URL.

(* ------------------------------------------------------------------ *)
(** ** Answer contract (src/src/lib/answerSchema.ts)

    An answer object as [JSON.parse] hands it to the code.  The arrays for
    which the schema declares [.default([])] may be missing from the model's
    JSON: they are [option]s, [None] being an absent ([undefined]) field.
    [shell] is optional ([?.] in [clampAnswer]).  Numbers are [Q]. *)

Module AnswerSchema.
Import JSString.

Record Step := mkStep {
  step_title : string;
  detail : string;
  os : list string;
  est_minutes : option Q;
  shell : option (list string)
}.

Record DecisionTree := mkDecisionTree {
  dt_if : string;
  dt_then : string;
  link_step : option Q
}.

Record Diagram := mkDiagram { caption : string; svg : string }.

Record Citation := mkCitation { url : string; cit_title : string; quote : string }.

Record Answer := mkAnswer {
  answer_title : string;
  one_paragraph_summary : string;
  prereqs : option (list string);
  steps : list Step;
  decision_tree : option (list DecisionTree);
  diagrams : option (list Diagram);
  citations : list Citation;
  warnings : option (list string)
}.

Definition os_enum : list string :=
  ["Windows"; "macOS"; "Android"; "iOS"; "ChromeOS"; "Linux"].

Definition nonempty (s : string) : bool := Nat.leb 1 (String.length s).

Definition is_integer (q : Q) : bool := Pos.eqb (Qden (Qred q)) 1.

(** [StepSchema] *)
Definition step_ok (s : Step) : bool :=
  nonempty (step_title s) && nonempty (detail s)
  && Nat.leb 1 (length (os s))
  && forallb (fun o => existsb (String.eqb o) os_enum) (os s)
  && match est_minutes s with None => true | Some m => negb (Qle_bool m 0) end.

(** [DecisionTreeSchema] *)
Definition decision_ok (d : DecisionTree) : bool :=
  nonempty (dt_if d) && nonempty (dt_then d)
  && match link_step d with
     | None => true
     | Some l => is_integer l && negb (Qle_bool l 0)
     end.

(** [DiagramSchema] *)
Definition diagram_ok (d : Diagram) : bool :=
  nonempty (caption d) && nonempty (svg d) && startsWith "<svg" (trim (svg d)).

(** [CitationSchema] *)
Definition citation_ok (c : Citation) : bool :=
  URL.url_ok (url c) && nonempty (cit_title c) && Nat.leb (String.length (quote c)) 180.

Definition default_nil {A} (o : option (list A)) : list A :=
  match o with Some l => l | None => [] end.

(** [AnswerSchema] *)
Definition answer_ok (a : Answer) : bool :=
  nonempty (answer_title a) && nonempty (one_paragraph_summary a)
  && Nat.leb 1 (length (steps a)) && forallb step_ok (steps a)
  && forallb decision_ok (default_nil (decision_tree a))
  && forallb diagram_ok (default_nil (diagrams a))
  && Nat.leb 2 (length (citations a)) && Nat.leb (length (citations a)) 5
  && forallb citation_ok (citations a).

(** The parsed value: defaults filled in. *)
Definition with_defaults (a : Answer) : Answer :=
  mkAnswer (answer_title a) (one_paragraph_summary a)
    (Some (default_nil (prereqs a))) (steps a)
    (Some (default_nil (decision_tree a))) (Some (default_nil (diagrams a)))
    (citations a) (Some (default_nil (warnings a))).

(** [safeParseAnswer]: [Some data] on success. *)
Definition safeParseAnswer (a : Answer) : option Answer :=
  if answer_ok a then Some (with_defaults a) else None.

(** [distinctDomainsOK] (lines 55-80), for a given [URL] hostname parser. *)
Definition registrable_domain (hostname : string) : string :=
  let parts := split "." hostname in
  if Nat.leb 2 (length parts) then join "." (slice_last 2 parts) else hostname.

(** [domains.add(d)] on a JavaScript [Set] kept in insertion order. *)
Definition set_add (d : string) (domains : list string) : list string :=
  if existsb (String.eqb d) domains then domains else domains ++ [d].

Definition distinctDomainsOK_with (hostname_of : string -> option string)
  (citations : list Citation) : bool :=
  if Nat.ltb (length citations) 2 then false
  else
    let domains :=
      fold_left
        (fun domains c =>
           match hostname_of (url c) with
           | None => domains  (* invalid URL, skipped *)
           | Some h => set_add (registrable_domain (toLowerCase h)) domains
           end)
        citations [] in
    Nat.leb 2 (length domains).

Definition distinctDomainsOK : list Citation -> bool :=
  distinctDomainsOK_with URL.url_hostname.

(** [clampAnswer] (lines 87-116).  [None]: a [.map] on an absent array
    throws a [TypeError]. *)
Definition clampStep (s : Step) : Step :=
  mkStep (prefix_upto 150 (step_title s)) (prefix_upto 800 (detail s)) (os s)
    (est_minutes s) (option_map (List.map (prefix_upto 200)) (shell s)).

Definition clampDecision (d : DecisionTree) : DecisionTree :=
  mkDecisionTree (prefix_upto 200 (dt_if d)) (prefix_upto 300 (dt_then d)) (link_step d).

Definition clampDiagram (d : Diagram) : Diagram :=
  mkDiagram (prefix_upto 200 (caption d)) (prefix_upto 10000 (svg d)).

Definition clampCitation (c : Citation) : Citation :=
  mkCitation (url c) (prefix_upto 200 (cit_title c)) (prefix_upto 180 (quote c)).

Definition clampAnswer (a : Answer) : option Answer :=
  match prereqs a, decision_tree a, diagrams a, warnings a with
  | Some ps, Some dts, Some ds, Some ws =>
      Some (mkAnswer
              (prefix_upto 200 (answer_title a))
              (prefix_upto 1000 (one_paragraph_summary a))
              (Some (List.map (prefix_upto 300) ps))
              (List.map clampStep (steps a))
              (Some (List.map clampDecision dts))
              (Some (List.map clampDiagram ds))
              (List.map clampCitation (citations a))
              (Some (List.map (prefix_upto 300) ws)))
  | _, _, _, _ => None
  end.

(** The claim's reading of [hasDistinctSources], from the spec's words:
    the registrable domain of a parseable URL is the last two dot-separated
    labels of its host name (compared case-insensitively); an unparseable
    URL gives none; the answer is "at least two citations and at least two
    distinct domains". *)
Definition last_two_labels (hostname : string) : string :=
  join "." (slice_last 2 (split "." hostname)).

Definition spec_domains (citations : list Citation) : list string :=
  nodup string_dec
    (flat_map (fun c => match URL.url_hostname (url c) with
                        | Some h => [last_two_labels (toLowerCase h)]
                        | None => []
                        end) citations).

Definition hasDistinctSources_spec (citations : list Citation) : Prop :=
  (2 <= length citations)%nat /\ (2 <= length (spec_domains citations))%nat.

(** The schema with its one upper length bound on strings (a citation's
    [quote] of at most 180 characters) left out; used to state that
    over-length content alone does not cause a rejection after clamping. *)
Definition citation_ok_unbounded (c : Citation) : bool :=
  URL.url_ok (url c) && nonempty (cit_title c).

Definition answer_ok_unbounded (a : Answer) : bool :=
  nonempty (answer_title a) && nonempty (one_paragraph_summary a)
  && Nat.leb 1 (length (steps a)) && forallb step_ok (steps a)
  && forallb decision_ok (default_nil (decision_tree a))
  && forallb diagram_ok (default_nil (diagrams a))
  && Nat.leb 2 (length (citations a)) && Nat.leb (length (citations a)) 5
  && forallb citation_ok_unbounded (citations a).

(** Every diagram's [<svg] tag starts within its first 10000 characters
    once leading whitespace is counted. *)
Definition svg_tags_within_cut (a : Answer) : bool :=
  forallb (fun d => Nat.leb (leading_ws (svg d) + 4) 10000) (default_nil (diagrams a)).

End AnswerSchema.


(* ------------------------------------------------------------------ *)
(** ** [answerIssue] (src/src/lib/llm.ts, lines 141-387)

    A thrown [Error] is [Err] with its message.  The OpenAI client, the
    tools and the JSON-extraction layer of lines 256-313 (fenced block,
    brace or bracket match, whitespace normalisation, [JSON.parse] and its
    repair) are fields of [Env]; every theorem below quantifies over them. *)

Module Orchestrator.
Import JSString AnswerSchema.

Inductive result (A : Type) := Ok (a : A) | Err (msg : string).
Arguments Ok {A}.
Arguments Err {A}.

Record ToolCall := mkToolCall {
  tc_id : string; tc_type : string; tc_name : string; tc_arguments : string
}.

Inductive Message :=
| MSystem (content : string)
| MUser (content : string)
| MAssistant (content : option string) (tool_calls : list ToolCall)
| MTool (tool_call_id : string) (content : string).

(** One [openai.chat.completions.create] call. *)
Inductive Completion :=
| CompletionThrows (err : string)      (* the request rejects *)
| NoChoice                             (* [completion.choices[0]?.message] is undefined *)
| Reply (content : option string) (tool_calls : list ToolCall).

Inductive ToolOutcome := ToolResult (json : string) | ToolThrows.

Record Env := mkEnv {
  openai_api_key : string;                     (* [process.env.OPENAI_API_KEY], empty if unset *)
  chat : list Message -> Completion;           (* the request with tools, lines 180-187 *)
  args_parse : string -> bool;                 (* [JSON.parse(args)] succeeds *)
  run_tool : string -> string -> ToolOutcome;  (* [JSON.stringify] of the tool's result, or a throw *)
  extract_answer : string -> option Answer;    (* lines 256-313; [None]: nothing parseable *)
  addendum_chat : list Citation -> Completion; (* the tool-free request, lines 332-342 *)
  parse_addendum : string -> option (list Citation)
    (* [content.match(/\[[\s\S]*\]/)], [JSON.parse], [Array.isArray], lines 347-350 *)
}.

Definition maxToolCalls : nat := 3.

(** The prompt text (lines 84-132), abridged to its first sentence. *)
Definition SYSTEM_PROMPT : string :=
  "You are a Level-1 IT support expert. Ask at most one clarifying question ONLY if OS/device is essential.".

Definition nl : string := String "010"%char EmptyString.

(** Lines 160-167 ([os] and [device] are empty when absent). *)
Definition user_message (issue os device : string) : string :=
  let m := ("Please help me resolve this IT issue: " ++ issue)%string in
  let m := if String.eqb os EmptyString then m else (m ++ nl ++ "Operating System: " ++ os)%string in
  let m := if String.eqb device EmptyString then m else (m ++ nl ++ "Device Type: " ++ device)%string in
  if orb (String.eqb os EmptyString) (String.eqb device EmptyString)
  then (m ++ nl ++ nl ++ "Note: If OS or device type is essential for this issue, please ask ONE clarifying question.")%string
  else m.

Definition initial_messages (issue os device : string) : list Message :=
  [MSystem SYSTEM_PROMPT; MUser (user_message issue os device)].

Definition toolFunctions : list string := ["search_web"; "fetch_page"; "make_svg_diagram"].

(** Keys that [toolFunctions[name]] also finds, on [Object.prototype]. *)
Definition object_prototype_keys : list string :=
  ["constructor"; "hasOwnProperty"; "isPrototypeOf"; "propertyIsEnumerable";
   "toLocaleString"; "toString"; "valueOf"; "__proto__"; "__defineGetter__";
   "__defineSetter__"; "__lookupGetter__"; "__lookupSetter__"].

(** [JSON.stringify({ error: `Failed to execute ${name}` })] *)
Definition tool_failure_marker (name : string) : string :=
  ("{" ++ dq ++ "error" ++ dq ++ ":" ++ dq ++ "Failed to execute " ++ name ++ dq ++ "}")%string.

(** Lines 206-243: the message pushed for one tool call, if any. *)
Definition process_tool_call (env : Env) (tc : ToolCall) : option Message :=
  if String.eqb (tc_type tc) "function" then
    if negb (args_parse env (tc_arguments tc))
    then Some (MTool (tc_id tc) (tool_failure_marker (tc_name tc)))
    else if existsb (String.eqb (tc_name tc)) toolFunctions then
      match run_tool env (tc_name tc) (tc_arguments tc) with
      | ToolResult r => Some (MTool (tc_id tc) r)
      | ToolThrows => Some (MTool (tc_id tc) (tool_failure_marker (tc_name tc)))
      end
    else if existsb (String.eqb (tc_name tc)) object_prototype_keys
    then Some (MTool (tc_id tc) (tool_failure_marker (tc_name tc)))  (* "Unknown tool" thrown *)
    else None
  else None.

Record LoopOut := mkLoopOut {
  finalResponse : string;
  messages : list Message;
  toolCallCount : nat
}.

(** Lines 174-249: [while (toolCallCount < maxToolCalls)], with
    [rounds_left = maxToolCalls - toolCallCount].  The second component
    counts the completion requests sent. *)
Fixpoint tool_loop (env : Env) (rounds_left toolCallCount : nat) (messages : list Message)
  : result LoopOut * nat :=
  match rounds_left with
  | O => (Ok (mkLoopOut EmptyString messages toolCallCount), O)
  | S r =>
      match chat env messages with
      | CompletionThrows e => (Err e, 1%nat)
      | NoChoice => (Err "No response from OpenAI", 1%nat)
      | Reply content calls =>
          let messages := messages ++ [MAssistant content calls] in
          match calls with
          | [] =>
              (Ok (mkLoopOut (match content with Some s => s | None => EmptyString end)
                             messages toolCallCount), 1%nat)
          | _ :: _ =>
              let toolResults :=
                flat_map (fun tc => match process_tool_call env tc with
                                    | Some m => [m]
                                    | None => []
                                    end) calls in
              let (res, n) := tool_loop env r (S toolCallCount) (messages ++ toolResults) in
              (res, S n)
          end
      end
  end.

(** The message of the [TypeError] thrown by [undefined.map]. *)
Definition map_of_undefined : string :=
  "Cannot read properties of undefined (reading 'map')".

(** The message of the [ZodError] thrown by [validateAnswer]. *)
Definition zod_error_message : string := "ZodError".

(** Lines 315-325: clamp, then validate. *)
Definition validate_stage (parsed : Answer) : result Answer :=
  match clampAnswer parsed with
  | None => Err map_of_undefined
  | Some clamped =>
      match safeParseAnswer clamped with
      | None => Err "Response does not match required schema"
      | Some data => Ok data
      end
  end.

Definition with_citations (a : Answer) (cs : list Citation) : Answer :=
  mkAnswer (answer_title a) (one_paragraph_summary a) (prereqs a) (steps a)
    (decision_tree a) (diagrams a) cs (warnings a).

(** Lines 327-372.  [parsedResponse.citations = newCitations] mutates the
    object before the re-validation, so a failed re-validation leaves the
    mutated object in place. *)
Definition citation_repair (env : Env) (parsedResponse : Answer) : result Answer :=
  if distinctDomainsOK (citations parsedResponse) then Ok parsedResponse
  else
    match addendum_chat env (citations parsedResponse) with
    | CompletionThrows e => Err e
    | NoChoice => Ok parsedResponse
    | Reply None _ => Ok parsedResponse
    | Reply (Some addendumContent) _ =>
        if String.eqb addendumContent EmptyString then Ok parsedResponse
        else
          match parse_addendum env addendumContent with
          | None => Ok parsedResponse
          | Some additionalCitations =>
              let newCitations :=
                firstn 5 (firstn 2 (citations parsedResponse) ++ firstn 3 additionalCitations) in
              let mutated := with_citations parsedResponse newCitations in
              match safeParseAnswer mutated with
              | None => Ok mutated
              | Some data => Ok data
              end
          end
    end.

(** [validateAnswer] *)
Definition validateAnswer (a : Answer) : result Answer :=
  match safeParseAnswer a with
  | Some data => Ok data
  | None => Err zod_error_message
  end.

(** Lines 158-375, inside the [try]. *)
Definition answerIssue_body (env : Env) (issue os device : string) : result Answer :=
  match fst (tool_loop env (maxToolCalls - 0) 0 (initial_messages issue os device)) with
  | Err e => Err e
  | Ok out =>
      if String.eqb (finalResponse out) EmptyString
      then Err "Failed to get final response after tool calls"
      else
        match extract_answer env (finalResponse out) with
        | None => Err "Invalid response format from AI model - unable to extract valid JSON"
        | Some parsedResponse =>
            match validate_stage parsedResponse with
            | Err e => Err e
            | Ok validated =>
                match citation_repair env validated with
                | Err e => Err e
                | Ok repaired => validateAnswer repaired
                end
            end
        end
  end.

(** [answerIssue({ issue, os, device })] *)
Definition answerIssue (env : Env) (issue os device : string) : result Answer :=
  if String.eqb (openai_api_key env) EmptyString
  then Err "OpenAI API key not configured"
  else
    match answerIssue_body env issue os device with
    | Ok a => Ok a
    | Err m => Err ("Unable to process your request: " ++ m)%string
    end.

End Orchestrator.

(* ------------------------------------------------------------------ *)
(** ** The [POST] route handler (src/unnamed/part_002, lines 128-260)

    The handler's effects are recorded as a trace of events.  [Date.now()]
    is read once for [consume] and once for the rest of the handler (its
    later readings are taken equal).  The cache holds answers. *)

Module Route.
Import JSString AnswerSchema Orchestrator RateLimit.

Record Server := mkServer {
  rateLimiter_state : TokenBucketRateLimiter;
  cache_state : LRU.LRUCache Answer
}.

(** The module-level state, lines 104-105. *)
Definition initial_server : Server :=
  mkServer (new_limiter 10 (10 * 60 * 1000)) (LRU.new_cache 100 6).

(** The request body after [request.json()]; a field is [None] when it is
    missing or not a string. *)
Record RequestBody := mkRequestBody {
  rb_issue : option string; rb_os : option string; rb_device : option string
}.

Record Request := mkRequest {
  x_forwarded_for : option string;
  x_real_ip : option string;
  json_body : option RequestBody   (* [None]: [request.json()] rejects *)
}.

Record Clock := mkClock { t_consume : Z; t_now : Z }.

Inductive Event :=
| ConsumeToken (ip : string)
| ParseBody
| CacheGet (key : string)
| Orchestrate (issue os device : string)
| CacheSet (key : string).

Inductive Body :=
| RateLimited (error : string) (retryAfter : Z)
| AnswerJson (a : Answer)
| ErrorJson (error : string).

Record Response := mkResponse {
  status : Z;
  body : Body;
  x_ratelimit_remaining : option Q;
  x_ratelimit_reset : option Z;  (* milliseconds; sent as an ISO string *)
  x_cache : option string
}.

Definition or_else (o : option string) (d : string) : string :=
  match o with Some s => if nonempty s then s else d | None => d end.

(** [forwarded?.split(',')[0] || realIp || 'anonymous'] *)
Definition client_ip (forwarded realIp : option string) : string :=
  let fallback := or_else realIp "anonymous" in
  match forwarded with
  | Some f => or_else (Some (hd EmptyString (split ","%char f))) fallback
  | None => fallback
  end.

(** [AnswerRequestSchema.parse(body)] *)
Definition parse_request (b : RequestBody) : option (string * string * string) :=
  match rb_issue b, rb_os b, rb_device b with
  | Some issue, Some os, Some device =>
      if nonempty issue && existsb (String.eqb os) os_enum && nonempty device
      then Some (issue, os, device) else None
  | _, _, _ => None
  end.

(** [JSON.stringify({ issue, os, device })] for strings JSON need not escape. *)
Definition cache_key (issue os device : string) : string :=
  ("{" ++ dq ++ "issue" ++ dq ++ ":" ++ dq ++ issue ++ dq ++ ","
       ++ dq ++ "os" ++ dq ++ ":" ++ dq ++ os ++ dq ++ ","
       ++ dq ++ "device" ++ dq ++ ":" ++ dq ++ device ++ dq ++ "}")%string.

Definition rateLimitWindow : Z := 10 * 60 * 1000.

(** [Math.ceil((W - (now % W)) / 1000)]; [%] truncates like [Z.rem], and
    [Math.ceil(x / 1000)] is [-floor(-x / 1000)]. *)
Definition retry_after (now : Z) : Z :=
  - ((- (rateLimitWindow - Z.rem now rateLimitWindow)) / 1000).

Definition internal_error : Response :=
  mkResponse 500 (ErrorJson "Internal server error") None None None.

Definition invalid_request : Response :=
  mkResponse 400 (ErrorJson "Invalid request data") None None None.

(** [POST(request)]: the response, the trace and the new module state.  The
    [catch] block reads the body again for its telemetry. *)
Definition POST (env : Env) (clk : Clock) (srv : Server) (req : Request)
  : Response * list Event * Server :=
  let clientIP := client_ip (x_forwarded_for req) (x_real_ip req) in
  let (allowed, rl1) := consume (t_consume clk) clientIP (rateLimiter_state srv) in
  if negb allowed then
    let remaining := getRemainingTokens (t_now clk) clientIP rl1 in
    (mkResponse 429
       (RateLimited "Rate limit exceeded. Please try again later." (retry_after (t_now clk)))
       (Some remaining) (Some (t_now clk + rateLimitWindow)) None,
     [ConsumeToken clientIP], mkServer rl1 (cache_state srv))
  else
    match json_body req with
    | None => (internal_error, [ConsumeToken clientIP; ParseBody; ParseBody],
               mkServer rl1 (cache_state srv))
    | Some b =>
        match parse_request b with
        | None => (invalid_request, [ConsumeToken clientIP; ParseBody; ParseBody],
                   mkServer rl1 (cache_state srv))
        | Some (issue, os, device) =>
            let key := cache_key issue os device in
            let (cachedResult, c1) := LRU.get (t_now clk) key (cache_state srv) in
            match cachedResult with
            | Some a =>
                (mkResponse 200 (AnswerJson a) None None (Some "HIT"),
                 [ConsumeToken clientIP; ParseBody; CacheGet key], mkServer rl1 c1)
            | None =>
                let evs := [ConsumeToken clientIP; ParseBody; CacheGet key;
                            Orchestrate issue os device] in
                match answerIssue env issue os device with
                | Err _ => (internal_error, evs ++ [ParseBody], mkServer rl1 c1)
                | Ok a =>
                    let c2 := LRU.set (t_now clk) key a c1 in
                    (mkResponse 200 (AnswerJson a)
                       (Some (getRemainingTokens (t_now clk) clientIP rl1)) None (Some "MISS"),
                     evs ++ [CacheSet key], mkServer rl1 c2)
                end
            end
        end
    end.

(** A client whose bucket is empty. *)
Definition drained_server : Server :=
  mkServer (with_buckets (new_limiter 10 (10 * 60 * 1000)) [("203.0.113.5", mkBucket 0 1000)])
    (LRU.new_cache 100 6).

Definition sample_request : Request :=
  mkRequest (Some "203.0.113.5, 10.0.0.1") None
    (Some (mkRequestBody (Some "My Wi-Fi keeps dropping") (Some "Windows") (Some "Laptop"))).

End Route.

(* ------------------------------------------------------------------ *)
(** ** [fetch_page] (src/src/lib/tools.ts, lines 200-267)

    [fetch] (with its 15-second abort) and [response.text()] are one
    outcome of the environment; [cheerio.load] followed by the removal of
    [script, style, iframe, noscript, meta, link, head] gives the text of
    the [h1, h2, h3] elements in document order and the text of [body]. *)

Module FetchPage.
Import JSString.

Inductive FetchOutcome :=
| FetchRejects                                  (* network error, abort, bad URL *)
| HttpResponse (ok : bool) (text : option string).  (* [None]: [text()] rejects *)

Record Dom := mkDom { heading_texts : list string; body_text : string }.

Record FetchEnv := mkFetchEnv {
  fetch : string -> FetchOutcome;
  cheerio_load : string -> option Dom   (* [None]: the parser throws *)
}.

Record PageContent := mkPageContent { clean_text : string; headings : list string }.

(** [.replace(/\s+/g, ' ')]; [prev_ws]: the previous character was in a
    replaced run. *)
Fixpoint collapse_aux (prev_ws : bool) (s : string) : string :=
  match s with
  | EmptyString => EmptyString
  | String c s' =>
      if is_ws c
      then if prev_ws then collapse_aux true s' else String " " (collapse_aux true s')
      else String c (collapse_aux false s')
  end.

Definition collapse_ws (s : string) : string := collapse_aux false s.

(** [.replace(/\n+/g, ' ')] *)
Fixpoint newlines_aux (prev_nl : bool) (s : string) : string :=
  match s with
  | EmptyString => EmptyString
  | String c s' =>
      if Ascii.eqb c "010"%char
      then if prev_nl then newlines_aux true s' else String " " (newlines_aux true s')
      else String c (newlines_aux false s')
  end.

Definition replace_newlines (s : string) : string := newlines_aux false s.

(** The [.each] over [h1, h2, h3]. *)
Fixpoint collect_headings (headings : list string) (elements : list string) : list string :=
  match elements with
  | [] => headings
  | e :: es =>
      let headings :=
        if Nat.ltb (length headings) 20
        then let text := trim e in
             if negb (String.eqb text EmptyString) then headings ++ [text] else headings
        else headings in
      collect_headings headings es
  end.

(** Lines 245-248. *)
Definition truncate_clean_text (cleanText : string) : string :=
  if Nat.ltb 40000 (String.length cleanText)
  then (prefix_upto 40000 cleanText ++ "...")%string
  else cleanText.

Definition failure_page (url : string) : PageContent :=
  mkPageContent
    ("Unable to fetch content from " ++ url ++ ". Please check the URL and try again.")%string [].

Definition fetch_page (env : FetchEnv) (url : string) : PageContent :=
  match fetch env url with
  | FetchRejects => failure_page url
  | HttpResponse false _ => failure_page url
  | HttpResponse true None => failure_page url
  | HttpResponse true (Some html) =>
      match cheerio_load env html with
      | None => failure_page url
      | Some dom =>
          let cleanText := trim (replace_newlines (collapse_ws (body_text dom))) in
          mkPageContent (truncate_clean_text cleanText) (collect_headings [] (heading_texts dom))
      end
  end.

(** A page whose body text is 40001 letters. *)
Definition long_page_env : FetchEnv :=
  mkFetchEnv (fun _ => HttpResponse true (Some "<html>...</html>"))
    (fun _ => Some (mkDom ["Fix Wi-Fi"] (repeat_char 40001 "a"))).

(** A short page with 25 headings, one of them blank. *)
Definition small_page_env : FetchEnv :=
  mkFetchEnv (fun _ => HttpResponse true (Some "<html>...</html>"))
    (fun _ => Some (mkDom (" " :: List.repeat "Step" 24) "  Restart   the router. ")).

End FetchPage.

(* ------------------------------------------------------------------ *)
(** ** [shouldFilterUrl], [search_web] and [make_svg_diagram]
    (src/src/lib/tools.ts) *)

Module Tools.
Import JSString.

(** [s.includes(needle)] *)
Fixpoint includes (needle s : string) : bool :=
  String.prefix needle s ||
  match s with
  | EmptyString => false
  | String _ s' => includes needle s'
  end.

(** [/suffix$/.test(s)]: without the [m] flag, [$] only matches at the end. *)
Fixpoint ends_with (suffix s : string) : bool :=
  String.eqb s suffix ||
  match s with
  | EmptyString => false
  | String _ s' => ends_with suffix s'
  end.

(** The twelve [junkPatterns] of lines 45-58, tested on the lower-cased
    URL (the [i] flag then changes nothing). *)
Definition junkPatterns : list (string -> bool) :=
  [ends_with ".pdf";
   (fun s => ends_with ".doc" s || ends_with ".docx" s);
   (fun s => ends_with ".xls" s || ends_with ".xlsx" s);
   (fun s => ends_with ".ppt" s || ends_with ".pptx" s);
   includes "login"; includes "signin"; includes "auth"; includes "admin";
   includes "dashboard";
   includes ".gov/login"; includes ".edu/login"; includes ".com/login"].

Definition explicitRequests : list string :=
  ["pdf"; "document"; "login"; "admin"; "dashboard"; "government"; "education"; "official"].

(** [shouldFilterUrl(url, query)], lines 40-73. *)
Definition shouldFilterUrl (url query : string) : bool :=
  let lowerUrl := toLowerCase url in
  let lowerQuery := toLowerCase query in
  let hasExplicitRequest := existsb (fun term => includes term lowerQuery) explicitRequests in
  if hasExplicitRequest then false
  else existsb (fun pattern => pattern lowerUrl) junkPatterns.

(** [s.replace(/\s+/g, r)] *)
Fixpoint ws_runs_to (r : string) (prev_ws : bool) (s : string) : string :=
  match s with
  | EmptyString => EmptyString
  | String c s' =>
      if is_ws c
      then if prev_ws then ws_runs_to r true s' else (r ++ ws_runs_to r true s')%string
      else String c (ws_runs_to r false s')
  end.

Definition replace_ws (r s : string) : string := ws_runs_to r false s.

(** [`${n}`] for an integer [n]. *)
Definition string_of_Z (n : Z) : string := NilZero.string_of_int (Z.to_int n).

Definition hex_digit (n : nat) : ascii :=
  if Nat.ltb n 10 then ascii_of_nat (48 + n) else ascii_of_nat (55 + n).

(** [%XY] for one byte. *)
Definition percent_byte (n : nat) : string :=
  String "%" (String (hex_digit (n / 16)) (String (hex_digit (n mod 16)) EmptyString)).

Definition uri_unreserved (c : ascii) : bool :=
  let n := nat_of_ascii c in
  (Nat.leb 65 n && Nat.leb n 90) || (Nat.leb 97 n && Nat.leb n 122) ||
  (Nat.leb 48 n && Nat.leb n 57) ||
  existsb (Nat.eqb n) [45; 95; 46; 33; 126; 42; 39; 40; 41]%nat.

(** [encodeURIComponent(s)]: a code unit below 128 is one UTF-8 byte, one
    from 128 to 255 is two. *)
Fixpoint encodeURIComponent (s : string) : string :=
  match s with
  | EmptyString => EmptyString
  | String c s' =>
      let n := nat_of_ascii c in
      let enc :=
        if uri_unreserved c then String c EmptyString
        else if Nat.ltb n 128 then percent_byte n
        else (percent_byte (192 + n / 64) ++ percent_byte (128 + n mod 64))%string in
      (enc ++ encodeURIComponent s')%string
  end.

Record SearchResult := mkSearchResult { sr_title : string; sr_url : string; sr_snippet : string }.

(** An element of [data.web.results]. *)
Record BraveResult := mkBraveResult { br_title : string; br_url : string; br_description : string }.

(** What the request to the search API gives. *)
Inductive SearchOutcome :=
| SearchThrows                                (* [fetch] or [response.json()] rejects, or the abort *)
| SearchHttpError (status : Z)                (* [!response.ok] *)
| SearchJson (web_results : option (list BraveResult)).  (* [data.web?.results], [None] if missing *)

Record SearchEnv := mkSearchEnv {
  brave_key : string;                          (* [process.env.BRAVE_API_KEY], empty if unset *)
  brave_search : string -> Z -> SearchOutcome  (* the request for [cleanQuery] and [count] *)
}.

(** [arr.slice(0, k)] for an integral [k]: a negative [k] counts from the end. *)
Definition slice0 {A} (k : Z) (l : list A) : list A :=
  firstn (Z.to_nat (if k <? 0 then Z.of_nat (length l) + k else k)) l.

Definition slug (q : string) : string := toLowerCase (replace_ws "-" q).

Definition no_key_results (query : string) : list SearchResult :=
  [mkSearchResult ("How to fix " ++ query ++ " - Tech Support Guide")
     ("https://example.com/fix-" ++ slug query)
     ("Comprehensive guide to resolve " ++ query ++ " issues on various operating systems.");
   mkSearchResult (query ++ " Troubleshooting Steps")
     ("https://support.example.com/" ++ slug query)
     ("Step-by-step troubleshooting for " ++ query ++ " problems.");
   mkSearchResult (query ++ " - Official Support Documentation")
     ("https://docs.example.com/" ++ slug query)
     ("Official documentation and support resources for " ++ query ++ " issues.")]%string.

Definition api_error_results (cleanQuery : string) (status : Z) : list SearchResult :=
  [mkSearchResult ("Search results for: " ++ cleanQuery)
     ("https://example.com/search-" ++ slug cleanQuery)
     ("Search results for " ++ cleanQuery ++ ". Brave Search API returned error "
        ++ string_of_Z status ++ ".");
   mkSearchResult ("IT Support: " ++ cleanQuery)
     ("https://support.microsoft.com/search?query=" ++ encodeURIComponent cleanQuery)
     ("Microsoft Support documentation for " ++ cleanQuery
        ++ ". Check official Microsoft support resources.");
   mkSearchResult ("Apple Support: " ++ cleanQuery)
     ("https://support.apple.com/search?q=" ++ encodeURIComponent cleanQuery)
     ("Apple Support documentation for " ++ cleanQuery
        ++ ". Check official Apple support resources.")]%string.

Definition catch_results (query : string) : list SearchResult :=
  [mkSearchResult ("Search results for: " ++ query)
     ("https://example.com/search-" ++ slug query)
     ("Search results for " ++ query ++ ". Please try again later.")]%string.

(** [search_web(query, topK = 5)], lines 81-193, for an integral [topK]
    ([None]: the argument is [undefined]). *)
Definition search_web (env : SearchEnv) (query : string) (topK_arg : option Z) : list SearchResult :=
  let topK := match topK_arg with Some k => k | None => 5 end in
  if String.eqb (brave_key env) EmptyString then slice0 topK (no_key_results query)
  else
    let cleanQuery := replace_ws " " (trim query) in
    match brave_search env cleanQuery (Z.min (topK * 2) 50) with
    | SearchThrows => slice0 topK (catch_results query)
    | SearchHttpError status => slice0 topK (api_error_results cleanQuery status)
    | SearchJson None => []
    | SearchJson (Some results) =>
        slice0 topK
          (List.map (fun r => mkSearchResult (br_title r) (br_url r) (br_description r))
             (List.filter (fun r => negb (shouldFilterUrl (br_url r) query)) results))
    end.

(** [spec.split(/->|→|to|then/)].  [→] is no one-byte code unit, so on
    these strings the separators are [->], [to] and [then]; [skip] counts
    the characters of a separator still to drop. *)
Definition sep_len (s : string) : option nat :=
  if String.prefix "->" s then Some 2%nat
  else if String.prefix "to" s then Some 2%nat
  else if String.prefix "then" s then Some 4%nat
  else None.

Definition cons_head (c : ascii) (l : list string) : list string :=
  match l with
  | [] => [String c EmptyString]
  | w :: ws => String c w :: ws
  end.

Fixpoint split_go (skip : nat) (s : string) : list string :=
  match s with
  | EmptyString => [EmptyString]
  | String c s' =>
      match skip with
      | S k => split_go k s'
      | O =>
          match sep_len s with
          | Some n => EmptyString :: split_go (n - 1) s'
          | None => cons_head c (split_go 0 s')
          end
      end
  end.

Definition split_flow (s : string) : list string := split_go 0 s.

(** Lines 275-284. *)
Definition diagram_parts (spec : string) : list string :=
  let spec := if String.eqb (trim spec) EmptyString then "IT Support Flow" else spec in
  let parts := List.filter (fun p => negb (String.eqb p EmptyString))
                 (List.map trim (split_flow spec)) in
  match parts with
  | [] => ["Process"]
  | _ => parts
  end.

(** [ name="value"] *)
Definition attr (name value : string) : string :=
  (" " ++ name ++ "=" ++ dq ++ value ++ dq)%string.

Definition colors : list string := ["#e3f2fd"; "#f3e5f5"; "#e8f5e8"; "#fff3e0"; "#fce4ec"].
Definition strokeColors : list string := ["#2196f3"; "#9c27b0"; "#4caf50"; "#ff9800"; "#e91e63"].

(** [part.length > 15 ? part.substring(0, 12) + '...' : part] *)
Definition displayText (part : string) : string :=
  if Nat.ltb 15 (String.length part) then (prefix_upto 12 part ++ "...")%string else part.

(** The markup the [forEach] of lines 302-331 adds for [part] at [index]
    (boxWidth 120, boxHeight 60, arrowLength 40, padding 20). *)
Definition box_svg (n index : nat) (part : string) : string :=
  let x := (20 + Z.of_nat index * 160)%Z in
  let y := 40%Z in
  let rect := ("<rect" ++ attr "x" (string_of_Z x) ++ attr "y" (string_of_Z y)
               ++ attr "width" "120" ++ attr "height" "60"
               ++ attr "fill" (nth (index mod 5) colors EmptyString)
               ++ attr "stroke" (nth (index mod 5) strokeColors EmptyString)
               ++ attr "stroke-width" "2" ++ attr "rx" "8" ++ "/>")%string in
  let text := ("<text" ++ attr "x" (string_of_Z (x + 60)) ++ attr "y" (string_of_Z (y + 30 + 5))
               ++ attr "text-anchor" "middle" ++ attr "font-family" "Arial, sans-serif"
               ++ attr "font-size" "12" ++ attr "fill" "#333" ++ ">"
               ++ displayText part ++ "</text>")%string in
  let arrow :=
    if Nat.ltb index (n - 1) then
      let arrowX := (x + 120 + 20)%Z in
      let arrowY := (y + 30)%Z in
      ("<line" ++ attr "x1" (string_of_Z (x + 120)) ++ attr "y1" (string_of_Z arrowY)
       ++ attr "x2" (string_of_Z arrowX) ++ attr "y2" (string_of_Z arrowY)
       ++ attr "stroke" "#666" ++ attr "stroke-width" "2"
       ++ attr "marker-end" "url(#arrowhead)" ++ "/>"
       ++ (if Nat.eqb index 0 then
             "<defs><marker" ++ attr "id" "arrowhead" ++ attr "markerWidth" "10"
             ++ attr "markerHeight" "7" ++ attr "refX" "9" ++ attr "refY" "3.5"
             ++ attr "orient" "auto" ++ ">"
             ++ "<polygon" ++ attr "points" "0 0, 10 3.5, 0 7" ++ attr "fill" "#666" ++ "/>"
             ++ "</marker></defs>"
           else EmptyString))%string
    else EmptyString in
  (rect ++ text ++ arrow)%string.

Fixpoint boxes_svg (n index : nat) (parts : list string) : string :=
  match parts with
  | [] => EmptyString
  | p :: ps => (box_svg n index p ++ boxes_svg n (S index) ps)%string
  end.

(** The markup before the boxes (lines 293-299). *)
Definition svg_head (n : nat) : string :=
  let totalWidth := (Z.of_nat n * (120 + 40) + 20)%Z in
  let totalHeight := (60 + 20 * 2)%Z in
  ("<svg" ++ attr "width" (string_of_Z totalWidth) ++ attr "height" (string_of_Z totalHeight)
   ++ attr "xmlns" "http://www.w3.org/2000/svg" ++ ">"
   ++ "<rect" ++ attr "width" (string_of_Z totalWidth) ++ attr "height" (string_of_Z totalHeight)
   ++ attr "fill" "#f8f9fa" ++ attr "stroke" "#dee2e6" ++ attr "stroke-width" "2"
   ++ attr "rx" "8" ++ "/>"
   ++ "<text" ++ attr "x" (string_of_Z (totalWidth / 2)) ++ attr "y" "25"
   ++ attr "text-anchor" "middle" ++ attr "font-family" "Arial, sans-serif"
   ++ attr "font-size" "14" ++ attr "font-weight" "bold" ++ attr "fill" "#495057"
   ++ ">IT Support Flow</text>")%string.

Record Diagram := mkDiagram { svg : string }.

(** [make_svg_diagram(spec)], lines 274-336.  [totalWidth] is even, so
    [totalWidth / 2] is an integer. *)
Definition make_svg_diagram (spec : string) : Diagram :=
  let parts := diagram_parts spec in
  let n := length parts in
  mkDiagram (trim (svg_head n ++ boxes_svg n 0 parts ++ "</svg>")%string).

End Tools.

(* ------------------------------------------------------------------ *)
(** ** Sequences of [consume] calls

    Each call is [(now, ip)]: the clock reading of its [Date.now()] and the
    client it is made for. *)

Module RateLimitRuns.
Import RateLimit.

Fixpoint consume_all (calls : list (Z * string)) (rl : TokenBucketRateLimiter)
  : list bool * TokenBucketRateLimiter :=
  match calls with
  | [] => ([], rl)
  | (now, ip) :: calls' =>
      let (r, rl') := consume now ip rl in
      let (rs, rl'') := consume_all calls' rl' in
      (r :: rs, rl'')
  end.

(** The clock readings never decrease, starting from [t]. *)
Fixpoint times_from (t : Z) (calls : list (Z * string)) : bool :=
  match calls with
  | [] => true
  | (t', _) :: calls' => Z.leb t t' && times_from t' calls'
  end.

(** How many of the calls made for [ip] were admitted. *)
Fixpoint admitted_for (ip : string) (calls : list (Z * string)) (results : list bool) : nat :=
  match calls, results with
  | (_, ip') :: calls', r :: results' =>
      (if String.eqb ip' ip && r then 1 else 0) + admitted_for ip calls' results'
  | _, _ => 0
  end.

Definition last_time (t : Z) (calls : list (Z * string)) : Z := fst (last calls (t, EmptyString)).

(** The clock reading of the latest call made for [ip], if any. *)
Fixpoint last_call_for (ip : string) (calls : list (Z * string)) : option Z :=
  match calls with
  | [] => None
  | (t, ip') :: calls' =>
      match last_call_for ip calls' with
      | Some t' => Some t'
      | None => if String.eqb ip' ip then Some t else None
      end
  end.

(** The bucket [consume] stores for the client it is called for. *)
Definition stored_bucket (now : Z) (ip : string) (rl : TokenBucketRateLimiter) : Bucket :=
  let b := refill now rl (current_bucket now ip rl) in
  if Qle_bool 1 (tokens b) then mkBucket (tokens b - 1)%Q (lastRefill b) else b.

Definition bucket_ok (mx : Q) (tc : Z) (b : Bucket) : Prop :=
  (0 <= tokens b)%Q /\ (tokens b <= mx)%Q /\ (lastRefill b <= tc)%Z.

(** Per-client admission invariant: the tokens admitted so far plus
    those left in the bucket never exceed the capacity plus what the
    refill rate has added since [t0]. *)
Definition adm_inv (ip : string) (t0 : Z) (mx rate : Q) (rl : TokenBucketRateLimiter)
  (tc : Z) (a : nat) : Prop :=
  match JSMap.get ip (buckets rl) with
  | None => a = 0%nat
  | Some b => (0 <= tokens b)%Q /\ (t0 <= lastRefill b <= tc)%Z /\
      (inject_Z (Z.of_nat a) + tokens b <= mx + inject_Z (lastRefill b - t0) * rate)%Q
  end.

End RateLimitRuns.

(** The cache of the route holds only answers that pass the schema. *)
Module RouteRuns.
Import AnswerSchema.

Definition cache_valid (c : LRU.LRUCache Answer) : Prop :=
  Forall (fun p => answer_ok (LRU.value (snd p)) = true) (LRU.cache c).

(** Successive calls of [POST] on the module state, each with the model
    behaviour, clock readings and request of its own. *)
Fixpoint POST_run (calls : list (Orchestrator.Env * Route.Clock * Route.Request))
  (srv : Route.Server) : list Route.Response * Route.Server :=
  match calls with
  | [] => ([], srv)
  | (env, clk, req) :: calls' =>
      let '(resp, _, srv1) := Route.POST env clk srv req in
      let (resps, srv2) := POST_run calls' srv1 in
      (resp :: resps, srv2)
  end.

End RouteRuns.

(* ------------------------------------------------------------------ *)
(** ** Concrete inputs *)

Module Examples.
Import JSString AnswerSchema Orchestrator.

Definition step0 : Step :=
  mkStep "Restart the router" "Unplug the router, wait 30 seconds, plug it back in."
    ["Windows"] None None.

Definition cit_support : Citation :=
  mkCitation "https://support.example.com/wifi" "Wi-Fi troubleshooting" "Restart your router.".

Definition cit_docs : Citation :=
  mkCitation "https://docs.example.com/router" "Router guide" "Power-cycle the device.".

(** A citation the model may send back in the addendum: empty title. *)
Definition cit_untitled : Citation :=
  mkCitation "https://other.org/wifi" EmptyString "Check the cable.".

(** A valid answer whose two citations share the domain [example.com]. *)
Definition ans0 : Answer :=
  mkAnswer "Fix Wi-Fi drops" "Restart the router and reconnect."
    (Some []) [step0] (Some []) (Some []) [cit_support; cit_docs] (Some []).

(** An environment whose model answers [ans0] at once and whose
    citation-addendum request behaves as given. *)
Definition env_repair (addendum : Completion) (parsed : option (list Citation)) : Env :=
  mkEnv "sk-test"
    (fun _ => Reply (Some "final answer") [])
    (fun _ => true)
    (fun _ _ => ToolThrows)
    (fun _ => Some ans0)
    (fun _ => addendum)
    (fun _ => parsed).

(** The addendum is an array holding one citation with an empty title. *)
Definition env_bad_addendum : Env :=
  env_repair (Reply (Some "[...]") []) (Some [cit_untitled]).

(** The addendum request rejects. *)
Definition env_addendum_throws : Env :=
  env_repair (CompletionThrows "Request timed out.") None.

(** The model always asks for a tool call. *)
Definition env_tools_forever : Env :=
  mkEnv "sk-test"
    (fun _ => Reply None [mkToolCall "call_1" "function" "search_web" "{}"])
    (fun _ => true)
    (fun _ _ => ToolResult "[]")
    (fun _ => None)
    (fun _ => NoChoice)
    (fun _ => None).

(** An SVG whose tag starts after 9997 blanks: 10003 characters. *)
Definition svg_padded : string := (repeat_char 9997 " " ++ "<svg/>")%string.

Definition ans_padded_svg : Answer :=
  mkAnswer "Fix Wi-Fi drops" "Restart the router and reconnect."
    (Some []) [step0] (Some []) (Some [mkDiagram "Flow" svg_padded])
    [cit_support; cit_docs] (Some []).

(** [ans0] without its (defaulted) [warnings] array. *)
Definition ans_no_warnings : Answer :=
  mkAnswer "Fix Wi-Fi drops" "Restart the router and reconnect."
    (Some []) [step0] (Some []) (Some []) [cit_support; cit_docs] None.

(** An environment whose model answers [a] at once; the citation
    addendum gets no choice back. *)
Definition env_answer (a : Answer) : Env :=
  mkEnv "sk-test"
    (fun _ => Reply (Some "final answer") [])
    (fun _ => true)
    (fun _ _ => ToolThrows)
    (fun _ => Some a)
    (fun _ => NoChoice)
    (fun _ => None).

(** [ans0] with a 300-character title. *)
Definition ans_long_title : Answer :=
  mkAnswer (repeat_char 300 "a") "Restart the router and reconnect."
    (Some []) [step0] (Some []) (Some []) [cit_support; cit_docs] (Some []).

End Examples.

(* ================================================================== *)
(** * Proofs *)

(** ** JavaScript [Map] lemmas *)

Module JSMapFacts.
Import JSMap.
Local Open Scope nat_scope.

Lemma eqb_refl' k : String.eqb k k = true.
Proof. apply String.eqb_refl. Qed.

Lemma get_set_same {A} k (v : A) m : get k (set k v m) = Some v.
Proof.
  unfold set. destruct (has k m) eqn:Hh.
  - induction m as [|[k' x] m IH]; simpl in *; [discriminate|].
    destruct (String.eqb k' k) eqn:E; simpl.
    + rewrite eqb_refl'. reflexivity.
    + rewrite E. apply IH. exact Hh.
  - induction m as [|[k' x] m IH]; simpl in *.
    + rewrite eqb_refl'. reflexivity.
    + apply orb_false_iff in Hh as [H1 H2]. rewrite H1. apply IH, H2.
Qed.

Lemma get_delete_same {A} k (m : t A) : get k (delete k m) = None.
Proof.
  induction m as [|[k' x] m IH]; simpl; [reflexivity|].
  destruct (String.eqb k' k) eqn:E; simpl; [exact IH|].
  rewrite E. exact IH.
Qed.

Lemma has_In {A} k (m : t A) : has k m = true <-> In k (keys m).
Proof.
  induction m as [|[k' x] m IH]; simpl; [split; [discriminate|tauto]|].
  rewrite orb_true_iff, IH, String.eqb_eq. split; intros [H|H]; auto.
Qed.

Lemma not_In_delete {A} k (m : t A) : ~ In k (keys (delete k m)).
Proof.
  induction m as [|[k' x] m IH]; simpl; [tauto|].
  destruct (String.eqb k' k) eqn:E; simpl; [exact IH|].
  apply String.eqb_neq in E. intros [H|H]; [congruence|contradiction].
Qed.

Lemma set_absent {A} k (v : A) m : ~ In k (keys m) -> set k v m = m ++ [(k, v)].
Proof.
  intros H. unfold set. destruct (has k m) eqn:Hh; [|reflexivity].
  apply has_In in Hh. contradiction.
Qed.

Lemma delete_absent {A} k (m : t A) : ~ In k (keys m) -> delete k m = m.
Proof.
  induction m as [|[k' x] m IH]; simpl; intros H; [reflexivity|].
  destruct (String.eqb k' k) eqn:E.
  - apply String.eqb_eq in E. subst. tauto.
  - simpl. f_equal. apply IH. tauto.
Qed.

Lemma delete_cons {A} k k' (x : A) m :
  delete k ((k', x) :: m) = if String.eqb k' k then delete k m else (k', x) :: delete k m.
Proof. unfold delete. simpl. destruct (String.eqb k' k); reflexivity. Qed.

Lemma delete_length_le {A} k (m : t A) : length (delete k m) <= length m.
Proof.
  induction m as [|[k' x] m IH]; [simpl; lia|].
  rewrite delete_cons. destruct (String.eqb k' k); simpl; lia.
Qed.

Lemma delete_length_lt {A} k (m : t A) : In k (keys m) -> length (delete k m) < length m.
Proof.
  induction m as [|[k' x] m IH]; [simpl; tauto|]. intros H. simpl in H.
  rewrite delete_cons. destruct (String.eqb k' k) eqn:E; simpl.
  - pose proof (delete_length_le k m). lia.
  - apply String.eqb_neq in E. destruct H as [H|H]; [congruence|].
    specialize (IH H). lia.
Qed.

Lemma get_In {A} k (m : t A) v : get k m = Some v -> In k (keys m).
Proof.
  induction m as [|[k' x] m IH]; simpl; [discriminate|].
  destruct (String.eqb k' k) eqn:E; intros H.
  - apply String.eqb_eq in E. auto.
  - right. apply IH, H.
Qed.

Lemma set_length_le {A} k (v : A) m : length (set k v m) <= S (length m).
Proof.
  unfold set. destruct (has k m).
  - rewrite length_map. lia.
  - rewrite length_app. simpl. lia.
Qed.

Lemma keys_app {A} (m1 m2 : t A) : keys (m1 ++ m2) = keys m1 ++ keys m2.
Proof. apply map_app. Qed.

Lemma delete_first_NoDup {A} k (m : t A) :
  NoDup (keys m) -> first_key m = Some k -> delete k m = tl m.
Proof.
  destruct m as [|[k' x] m]; simpl; [discriminate|].
  intros Hnd Hk. injection Hk as <-. rewrite eqb_refl'. simpl.
  inversion Hnd; subst. apply delete_absent. assumption.
Qed.

Lemma get_not_In {A} k (m : t A) : ~ In k (keys m) -> get k m = None.
Proof.
  intros H. destruct (get k m) eqn:Hg; [|reflexivity].
  exfalso. apply H. eapply get_In. exact Hg.
Qed.

Lemma In_delete {A} x k (m : t A) : In x (keys (delete k m)) -> In x (keys m).
Proof.
  induction m as [|[k' y] m IH]; [simpl; tauto|].
  rewrite delete_cons. destruct (String.eqb k' k); simpl; intros H; [right; auto|].
  destruct H; auto.
Qed.

Lemma keys_tl {A} (m : t A) : keys (tl m) = tl (keys m).
Proof. destruct m; reflexivity. Qed.

End JSMapFacts.

(** ** Response cache *)

Module LRUFacts.
Import LRU JSMapFacts.
Local Open Scope nat_scope.

Section Facts.
Context {V : Type}.

Lemma set_size_bound (now : Z) k (v : V) c :
  (1 <= capacity c)%Z -> (Z.of_nat (size c) <= capacity c)%Z ->
  (Z.of_nat (size (set now k v c)) <= capacity c)%Z.
Proof.
  unfold size, set, JSMap.size. simpl. intros Hc Hs.
  pose proof (delete_length_le k (cache c)) as Hd.
  set (m1 := JSMap.delete k (cache c)) in *.
  destruct (Z.geb (Z.of_nat (length m1)) (capacity c)) eqn:Hge.
  - apply Z.geb_le in Hge.
    destruct m1 as [|[fk x] m1'] eqn:Hm1; simpl in Hge; [lia|].
    simpl JSMap.first_key.
    pose proof (delete_length_lt fk ((fk, x) :: m1')) as Hlt.
    simpl in Hlt. specialize (Hlt (or_introl eq_refl)).
    pose proof (set_length_le k (mkItem v now) (JSMap.delete fk ((fk, x) :: m1'))).
    simpl in *. lia.
  - rewrite Z.geb_leb in Hge; apply Z.leb_gt in Hge.
    pose proof (set_length_le k (mkItem v now) m1). lia.
Qed.

Lemma get_size_bound (now : Z) k (c : LRUCache V) :
  size (snd (get now k c)) <= size c.
Proof.
  unfold get, size, JSMap.size.
  destruct (JSMap.get k (cache c)) as [it|] eqn:Hg; simpl; [|lia].
  pose proof (get_In _ _ _ Hg) as Hin.
  pose proof (delete_length_lt k (cache c) Hin).
  destruct (Z.gtb _ _); simpl; [lia|].
  rewrite set_absent by apply not_In_delete.
  rewrite length_app. simpl. lia.
Qed.

Lemma step_capacity (o : op V) c : capacity (step o c) = capacity c.
Proof.
  destruct o; simpl; try reflexivity.
  unfold get. destruct (JSMap.get _ _); [destruct (Z.gtb _ _)|]; reflexivity.
Qed.

Lemma run_size_bound (os : list (op V)) c :
  (1 <= capacity c)%Z -> (Z.of_nat (size c) <= capacity c)%Z ->
  (Z.of_nat (size (run os c)) <= capacity (run os c))%Z.
Proof.
  revert c. induction os as [|o os IH]; intros c H1 H2; simpl; [exact H2|].
  apply IH; rewrite step_capacity; [exact H1|].
  destruct o; simpl.
  - pose proof (get_size_bound now key c). lia.
  - apply set_size_bound; assumption.
  - exact H2.
Qed.

Lemma set_fresh_room (now : Z) k (v : V) c :
  ~ In k (JSMap.keys (cache c)) -> (Z.of_nat (size c) < capacity c)%Z ->
  cache (set now k v c) = cache c ++ [(k, mkItem v now)].
Proof.
  unfold set, size, JSMap.size. simpl. intros Hk Hs.
  rewrite (delete_absent k (cache c) Hk).
  destruct (Z.geb _ _) eqn:Hge; [apply Z.geb_le in Hge; lia|].
  apply set_absent. exact Hk.
Qed.

Lemma set_fresh_full (now : Z) k (v : V) c :
  ~ In k (JSMap.keys (cache c)) -> NoDup (JSMap.keys (cache c)) ->
  (1 <= capacity c)%Z -> Z.of_nat (size c) = capacity c ->
  cache (set now k v c) = tl (cache c) ++ [(k, mkItem v now)].
Proof.
  unfold set, size, JSMap.size. simpl. intros Hk Hnd H1 Hs.
  rewrite (delete_absent k (cache c) Hk).
  destruct (Z.geb _ _) eqn:Hge; [|rewrite Z.geb_leb in Hge; apply Z.leb_gt in Hge; lia].
  destruct (cache c) as [|[fk x] m] eqn:Hm; [simpl in Hs; lia|].
  cbn iota beta delta [JSMap.first_key].
  rewrite (delete_first_NoDup fk ((fk, x) :: m) Hnd eq_refl). simpl.
  apply set_absent. intros Hin. apply Hk. simpl. right. exact Hin.
Qed.

Lemma run_capacity (os : list (op V)) c : capacity (run os c) = capacity c.
Proof.
  revert c. induction os as [|o os IH]; intros c; simpl; [reflexivity|].
  rewrite IH. apply step_capacity.
Qed.

Lemma set_all_app ins1 ins2 (v : V) c :
  set_all (ins1 ++ ins2) v c = set_all ins2 v (set_all ins1 v c).
Proof.
  revert c. induction ins1 as [|[t k] ins1 IH]; intros c; simpl; [reflexivity|].
  apply IH.
Qed.

Lemma set_all_capacity ins (v : V) c : capacity (set_all ins v c) = capacity c.
Proof.
  revert c. induction ins as [|[t k] ins IH]; intros c; simpl; [reflexivity|].
  rewrite IH. reflexivity.
Qed.

Lemma set_all_room ins (v : V) c :
  NoDup (JSMap.keys (cache c) ++ List.map snd ins) ->
  (Z.of_nat (size c + length ins) <= capacity c)%Z ->
  JSMap.keys (cache (set_all ins v c)) = JSMap.keys (cache c) ++ List.map snd ins.
Proof.
  revert c. induction ins as [|[t k] ins IH]; intros c Hnd Hs; simpl.
  - rewrite app_nil_r. reflexivity.
  - assert (Hk : ~ In k (JSMap.keys (cache c))).
    { intros Hin. apply NoDup_remove_2 in Hnd. apply Hnd. apply in_or_app. left. exact Hin. }
    assert (Hset : cache (set t k v c) = cache c ++ [(k, mkItem v t)]).
    { apply set_fresh_room; [exact Hk|]. simpl in Hs. lia. }
    rewrite IH.
    + rewrite Hset, keys_app. simpl. rewrite <- app_assoc. reflexivity.
    + rewrite Hset, keys_app. simpl. rewrite <- app_assoc. exact Hnd.
    + unfold size, JSMap.size in *. rewrite Hset, length_app. simpl in *.
      change (capacity (set t k v c)) with (capacity c). lia.
Qed.

End Facts.
End LRUFacts.

(** Claim C3.  For every sequence of [get]/[set]/[size] calls on a cache
    built with a capacity of at least one, the mapping never holds more
    entries than the capacity; inserting [capacity + 1] distinct keys into
    a fresh cache leaves exactly [capacity] entries, namely all keys but
    the first (the least recently touched), which is no longer found. *)
Theorem lru_size_never_exceeds_capacity (V : Type) (cap ttlHours : Z) (Hcap : (1 <= cap)%Z) :
  (forall os : list (LRU.op V),
      (Z.of_nat (LRU.size (LRU.run os (LRU.new_cache cap ttlHours))) <= cap)%Z) /\
  (forall (ins : list (Z * string)) (v : V),
      NoDup (List.map snd ins) -> length ins = S (Z.to_nat cap) ->
      let c := LRU.set_all ins v (LRU.new_cache cap ttlHours) in
      LRU.size c = Z.to_nat cap /\
      JSMap.keys (LRU.cache c) = tl (List.map snd ins) /\
      JSMap.get (hd EmptyString (List.map snd ins)) (LRU.cache c) = None).
Proof.
  split.
  - intros os.
    pose proof (LRUFacts.run_size_bound os (LRU.new_cache (V:=V) cap ttlHours)) as H.
    rewrite LRUFacts.run_capacity in H. apply H; simpl; [exact Hcap|lia].
  - intros ins v Hnd Hlen c.
    destruct (exists_last (l := ins)) as [ins' [[t k] Heq]];
      [intros ->; discriminate|].
    subst ins. rewrite length_app in Hlen. simpl in Hlen.
    assert (Hl : length ins' = Z.to_nat cap) by lia.
    rewrite map_app in Hnd |- *. simpl in Hnd |- *.
    set (c0 := LRU.new_cache (V:=V) cap ttlHours).
    set (c1 := LRU.set_all ins' v c0).
    assert (Hk1 : JSMap.keys (LRU.cache c1) = List.map snd ins').
    { apply LRUFacts.set_all_room; simpl; [|rewrite Hl; lia].
      eapply NoDup_app_remove_r. exact Hnd. }
    assert (Hcap1 : LRU.capacity c1 = cap) by apply LRUFacts.set_all_capacity.
    assert (Hsz1 : LRU.size c1 = Z.to_nat cap).
    { unfold LRU.size, JSMap.size. rewrite <- Hl, <- (length_map snd ins').
      rewrite <- Hk1. unfold JSMap.keys. rewrite length_map. reflexivity. }
    assert (Hnew : ~ In k (List.map snd ins')).
    { apply NoDup_remove_2 in Hnd. rewrite app_nil_r in Hnd. exact Hnd. }
    assert (Hc : LRU.cache c = tl (LRU.cache c1) ++ [(k, LRU.mkItem v t)]).
    { unfold c. rewrite LRUFacts.set_all_app. simpl.
      apply LRUFacts.set_fresh_full.
      - rewrite Hk1. exact Hnew.
      - rewrite Hk1. eapply NoDup_app_remove_r. exact Hnd.
      - rewrite Hcap1. exact Hcap.
      - rewrite Hsz1, Hcap1. lia. }
    assert (Hne : List.map snd ins' <> []).
    { intros Hm. apply (f_equal (@length _)) in Hm. rewrite length_map in Hm.
      simpl in Hm. lia. }
    assert (Hlk : length (List.map snd ins') = Z.to_nat cap) by (rewrite length_map; exact Hl).
    clearbody c c1 c0.
    destruct (List.map snd ins') as [|k0 ks0] eqn:Hm; [congruence|].
    simpl in Hnd |- *.
    assert (Hkeys : JSMap.keys (LRU.cache c) = ks0 ++ [k]).
    { rewrite Hc, JSMapFacts.keys_app, JSMapFacts.keys_tl, Hk1. reflexivity. }
    split; [|split].
    + unfold LRU.size, JSMap.size.
      rewrite <- (length_map fst (LRU.cache c)). change (List.map fst (LRU.cache c))
        with (JSMap.keys (LRU.cache c)).
      rewrite Hkeys, length_app. simpl in Hlk. simpl. lia.
    + exact Hkeys.
    + apply JSMapFacts.get_not_In. rewrite Hkeys.
      inversion Hnd; subst. exact H1.
Qed.

(** Claim C4.  For a key present in the cache with entry [it]: a [get]
    more than [ttl] after the entry's timestamp answers absent and leaves
    the mapping without the key; a [get] within the [ttl] answers the value
    and moves the entry to the last (most recently used) position, the
    other entries keeping their order; a [set] of the key puts the new
    entry last and leaves no other entry for the key. *)
Theorem lru_get_expiry_and_recency (V : Type) (now : Z) (k : string)
  (c : LRU.LRUCache V) (it : LRU.item V)
  (Hin : JSMap.get k (LRU.cache c) = Some it) :
  ((now - LRU.timestamp it > LRU.ttl c)%Z ->
     LRU.get now k c = (None, LRU.with_map c (JSMap.delete k (LRU.cache c))) /\
     JSMap.get k (LRU.cache (snd (LRU.get now k c))) = None) /\
  ((now - LRU.timestamp it <= LRU.ttl c)%Z ->
     LRU.get now k c =
       (Some (LRU.value it), LRU.with_map c (JSMap.delete k (LRU.cache c) ++ [(k, it)]))) /\
  (forall v : V, exists m2,
     LRU.cache (LRU.set now k v c) = m2 ++ [(k, LRU.mkItem v now)] /\
     ~ In k (JSMap.keys m2)).
Proof.
  split; [|split].
  - intros Hexp. unfold LRU.get. rewrite Hin.
    replace (Z.gtb (now - LRU.timestamp it) (LRU.ttl c)) with true
      by (symmetry; apply Z.gtb_lt; lia).
    split; [reflexivity|]. simpl. apply JSMapFacts.get_delete_same.
  - intros Hok. unfold LRU.get. rewrite Hin.
    replace (Z.gtb (now - LRU.timestamp it) (LRU.ttl c)) with false
      by (symmetry; rewrite Z.gtb_ltb; apply Z.ltb_ge; lia).
    rewrite JSMapFacts.set_absent by apply JSMapFacts.not_In_delete. reflexivity.
  - intros v. unfold LRU.set. simpl.
    set (m1 := JSMap.delete k (LRU.cache c)).
    assert (H1 : ~ In k (JSMap.keys m1)) by apply JSMapFacts.not_In_delete.
    set (m2 := if Z.geb (Z.of_nat (JSMap.size m1)) (LRU.capacity c)
               then match JSMap.first_key m1 with
                    | Some firstKey => JSMap.delete firstKey m1
                    | None => m1 end
               else m1).
    assert (H2 : ~ In k (JSMap.keys m2)).
    { unfold m2. destruct (Z.geb _ _); [destruct (JSMap.first_key m1)|]; auto.
      intros H. apply H1. eapply JSMapFacts.In_delete. exact H. }
    exists m2. split; [apply JSMapFacts.set_absent; exact H2|exact H2].
Qed.

(** ** Rate limiter *)

Module RateLimitFacts.
Import RateLimit.

(** A stored bucket stamped with the current clock reading gets no refill. *)
Lemma consume_same_time (now : Z) ip rl t :
  JSMap.get ip (buckets rl) = Some (mkBucket t now) ->
  consume now ip rl =
    let t' := Qminmax.Qmin (maxTokens rl) (t + inject_Z 0 * refillRate rl)%Q in
    if Qle_bool 1%Q t'
    then (true, with_buckets rl (JSMap.set ip (mkBucket (t' - 1)%Q now) (buckets rl)))
    else (false, with_buckets rl (JSMap.set ip (mkBucket t' now) (buckets rl))).
Proof.
  intros H. unfold consume, current_bucket, refill. rewrite H. simpl.
  rewrite Z.sub_diag. reflexivity.
Qed.

Lemma consume_fresh (now : Z) ip rl :
  JSMap.get ip (buckets rl) = None ->
  consume now ip rl =
    let t' := Qminmax.Qmin (maxTokens rl) (maxTokens rl + inject_Z 0 * refillRate rl)%Q in
    if Qle_bool 1%Q t'
    then (true, with_buckets rl (JSMap.set ip (mkBucket (t' - 1)%Q now) (buckets rl)))
    else (false, with_buckets rl (JSMap.set ip (mkBucket t' now) (buckets rl))).
Proof.
  intros H. unfold consume, current_bucket, refill. rewrite H. simpl.
  rewrite Z.sub_diag. reflexivity.
Qed.

Lemma consume_n_same_time n (now : Z) ip rl t :
  JSMap.get ip (buckets rl) = Some (mkBucket t now) ->
  fst (consume_n n now ip rl) = tokens_run n (maxTokens rl) (refillRate rl) t.
Proof.
  revert rl t. induction n as [|n IH]; intros rl t H; [reflexivity|].
  simpl. rewrite (consume_same_time now ip rl t H). simpl.
  destruct (Qle_bool 1 _).
  - destruct (consume_n n now ip _) as [rs rl''] eqn:E. simpl.
    f_equal. match type of E with consume_n _ _ _ ?r = _ =>
      pose proof (IH r _ (JSMapFacts.get_set_same _ _ _)) as H' end.
    rewrite E in H'. exact H'.
  - destruct (consume_n n now ip _) as [rs rl''] eqn:E. simpl.
    f_equal. match type of E with consume_n _ _ _ ?r = _ =>
      pose proof (IH r _ (JSMapFacts.get_set_same _ _ _)) as H' end.
    rewrite E in H'. exact H'.
Qed.

Lemma consume_n_fresh n (now : Z) ip rl :
  JSMap.get ip (buckets rl) = None ->
  fst (consume_n (S n) now ip rl) =
    tokens_run (S n) (maxTokens rl) (refillRate rl) (maxTokens rl).
Proof.
  intros H. cbn [consume_n]. rewrite (consume_fresh now ip rl H). cbv zeta.
  cbn [tokens_run].
  destruct (Qle_bool 1 _);
    destruct (consume_n n now ip _) as [rs rl''] eqn:E; simpl; f_equal;
    match type of E with consume_n _ _ _ ?r = _ =>
      pose proof (consume_n_same_time n now ip r _ (JSMapFacts.get_set_same _ _ _)) as H' end;
    rewrite E in H'; exact H'.
Qed.

End RateLimitFacts.

(** Claim C2.  With the route's configuration (10 tokens per 10 minutes),
    an identity without a bucket is admitted by 10 back-to-back [consume]
    calls (same clock reading) and denied by the 11th, whatever buckets
    other identities hold; and whenever [consume] denies, the identity's
    bucket is still written: refilled, and stamped with the call's time. *)
Theorem consume_burst_then_deny (now : Z) (ip : string)
  (bs : JSMap.t RateLimit.Bucket) (Hfresh : JSMap.get ip bs = None) :
  fst (RateLimit.consume_n 11 now ip (RateLimit.with_buckets RateLimit.rateLimiter bs))
    = repeat true 10 ++ [false] /\
  (forall now' ip' rl',
     fst (RateLimit.consume now' ip' rl') = false ->
     JSMap.get ip' (RateLimit.buckets (snd (RateLimit.consume now' ip' rl')))
       = Some (RateLimit.refill now' rl' (RateLimit.current_bucket now' ip' rl')) /\
     RateLimit.lastRefill (RateLimit.refill now' rl' (RateLimit.current_bucket now' ip' rl'))
       = now').
Proof.
  split.
  - set (rl := RateLimit.with_buckets RateLimit.rateLimiter bs).
    rewrite (RateLimitFacts.consume_n_fresh 10 now ip rl Hfresh).
    vm_compute. reflexivity.
  - intros now' ip' rl' H. unfold RateLimit.consume in *.
    destruct (Qle_bool 1 _); simpl in *; [discriminate|].
    split; [apply JSMapFacts.get_set_same|reflexivity].
Qed.

(** ** Citation domain diversity *)

Module DomainFacts.
Import JSString AnswerSchema.
Local Open Scope nat_scope.

Lemma split_nonempty c s : split c s <> [].
Proof.
  induction s as [|c' s IH]; simpl; [discriminate|].
  destruct (Ascii.eqb c' c); [discriminate|].
  destruct (split c s); discriminate.
Qed.

Lemma join_split c s : join (String c EmptyString) (split c s) = s.
Proof.
  induction s as [|c' s IH]; [reflexivity|]. simpl.
  destruct (Ascii.eqb c' c) eqn:E.
  - apply Ascii.eqb_eq in E. subst c'.
    pose proof (split_nonempty c s) as Hne.
    destruct (split c s) as [|w ws] eqn:Hs; [congruence|].
    change (join (String c EmptyString) (EmptyString :: w :: ws))
      with (EmptyString ++ String c EmptyString ++ join (String c EmptyString) (w :: ws))%string.
    rewrite IH. reflexivity.
  - destruct (split c s) as [|w ws] eqn:Hs; [exfalso; exact (split_nonempty c s Hs)|].
    destruct ws as [|w' ws'].
    + simpl in *. rewrite IH. reflexivity.
    + change (join (String c EmptyString) (String c' w :: w' :: ws'))
        with (String c' w ++ String c EmptyString ++ join (String c EmptyString) (w' :: ws'))%string.
      change (join (String c EmptyString) (w :: w' :: ws'))
        with (w ++ String c EmptyString ++ join (String c EmptyString) (w' :: ws'))%string in IH.
      rewrite <- IH. reflexivity.
Qed.

Lemma registrable_domain_last_two h : registrable_domain h = last_two_labels h.
Proof.
  unfold registrable_domain, last_two_labels.
  destruct (Nat.leb 2 (length (split "." h))) eqn:E; [reflexivity|].
  apply Nat.leb_gt in E.
  unfold slice_last. replace (length (split "." h) - 2) with 0 by lia.
  simpl. symmetry. apply join_split.
Qed.

Lemma set_add_spec d l :
  NoDup l -> NoDup (set_add d l) /\ (forall x, In x (set_add d l) <-> In x l \/ x = d).
Proof.
  intros Hnd. unfold set_add. destruct (existsb (String.eqb d) l) eqn:E.
  - apply existsb_exists in E as [y [Hy Heq]]. apply String.eqb_eq in Heq. subst y.
    split; [exact Hnd|]. intros x. split; [tauto|]. intros [H|H]; [exact H|subst; exact Hy].
  - assert (Hd : ~ In d l).
    { intros Hin. assert (existsb (String.eqb d) l = true) by
        (apply existsb_exists; exists d; split; [exact Hin|apply String.eqb_refl]).
      congruence. }
    split.
    + apply NoDup_app; [exact Hnd|constructor; [tauto|constructor]|].
      intros x Hx Hx'. destruct Hx' as [<-|[]]. contradiction.
    + intros x. rewrite in_app_iff. simpl. split; intros [H|H]; auto.
      * destruct H as [H|[]]. auto.
Qed.

Lemma fold_domains_spec (hostname_of : string -> option string) cits acc :
  NoDup acc ->
  let r := fold_left
             (fun domains c =>
                match hostname_of (url c) with
                | None => domains
                | Some h => set_add (registrable_domain (toLowerCase h)) domains
                end) cits acc in
  NoDup r /\
  (forall x, In x r <-> In x acc \/
     In x (flat_map (fun c => match hostname_of (url c) with
                              | Some h => [last_two_labels (toLowerCase h)]
                              | None => []
                              end) cits)).
Proof.
  revert acc. induction cits as [|c cits IH]; intros acc Hnd; simpl.
  - split; [exact Hnd|]. intros x. tauto.
  - destruct (hostname_of (url c)) as [h|] eqn:Hh.
    + destruct (set_add_spec (registrable_domain (toLowerCase h)) acc Hnd) as [Hnd' Hin'].
      destruct (IH _ Hnd') as [Hr Hx]. split; [exact Hr|].
      intros x. rewrite Hx, Hin', registrable_domain_last_two. simpl.
      split; intros H; intuition.
    + destruct (IH _ Hnd) as [Hr Hx]. split; [exact Hr|]. intros x. rewrite Hx. tauto.
Qed.

Lemma NoDup_same_length (l1 l2 : list string) :
  NoDup l1 -> NoDup l2 -> (forall x, In x l1 <-> In x l2) -> length l1 = length l2.
Proof.
  intros H1 H2 H. apply Nat.le_antisymm; apply NoDup_incl_length; auto;
    intros x Hx; apply H; exact Hx.
Qed.

Lemma distinct_domains_length cits :
  (2 <= length cits) ->
  distinctDomainsOK cits = Nat.leb 2 (length (spec_domains cits)).
Proof.
  intros Hlen. unfold distinctDomainsOK, distinctDomainsOK_with.
  replace (Nat.ltb (length cits) 2) with false by (symmetry; apply Nat.ltb_ge; lia).
  destruct (fold_domains_spec URL.url_hostname cits [] (NoDup_nil _)) as [Hnd Hin].
  f_equal. apply NoDup_same_length; [exact Hnd|apply NoDup_nodup|].
  intros x. rewrite Hin. unfold spec_domains. rewrite nodup_In. simpl. tauto.
Qed.

End DomainFacts.

(** Claim C7.  [distinctDomainsOK] answers [true] exactly when there are
    at least two citations and the set of registrable domains (last two
    labels of each parseable URL's host name; unparseable URLs give none)
    has at least two elements; it answers [false] for
    [https://support.example.com] with [https://docs.example.com] and
    [true] for [https://example.com] with [https://different.org]. *)
Theorem distinctDomainsOK_iff (cits : list AnswerSchema.Citation) :
  (AnswerSchema.distinctDomainsOK cits = true <-> AnswerSchema.hasDistinctSources_spec cits) /\
  AnswerSchema.distinctDomainsOK
    [AnswerSchema.mkCitation "https://support.example.com" "Support" "support";
     AnswerSchema.mkCitation "https://docs.example.com" "Docs" "docs"] = false /\
  AnswerSchema.distinctDomainsOK
    [AnswerSchema.mkCitation "https://example.com" "Example" "example";
     AnswerSchema.mkCitation "https://different.org" "Different" "different"] = true.
Proof.
  split; [|split; vm_compute; reflexivity].
  unfold AnswerSchema.hasDistinctSources_spec.
  destruct (Nat.leb 2 (length cits)) eqn:Hl.
  - apply Nat.leb_le in Hl. rewrite (DomainFacts.distinct_domains_length cits Hl).
    rewrite Nat.leb_le. tauto.
  - apply Nat.leb_gt in Hl. unfold AnswerSchema.distinctDomainsOK,
      AnswerSchema.distinctDomainsOK_with.
    replace (Nat.ltb (length cits) 2) with true by (symmetry; apply Nat.ltb_lt; lia).
    split; [discriminate|]. intros [H _]. lia.
Qed.

(** ** String lemmas for [clampAnswer] *)

Module StringFacts.
Import JSString.
Local Open Scope nat_scope.

Lemma prefix_upto_length n s : String.length (prefix_upto n s) = Nat.min n (String.length s).
Proof.
  unfold prefix_upto. revert n. induction s as [|c s IH]; intros [|n]; simpl; auto.
Qed.

Lemma prefix_upto_prefix n s : String.prefix (prefix_upto n s) s = true.
Proof.
  unfold prefix_upto. revert n. induction s as [|c s IH]; intros [|n]; simpl; auto.
  destruct (ascii_dec c c); [apply IH|congruence].
Qed.

Lemma prefix_upto_short n s : String.length s <= n -> prefix_upto n s = s.
Proof.
  unfold prefix_upto. revert n. induction s as [|c s IH]; intros [|n] H; simpl in *;
    auto; try lia.
  f_equal. apply IH. lia.
Qed.

Lemma nonempty_prefix_upto n s :
  1 <= n -> AnswerSchema.nonempty (prefix_upto n s) = AnswerSchema.nonempty s.
Proof.
  intros Hn. destruct s as [|c s]; [destruct n; reflexivity|].
  destruct n as [|n]; [lia|]. reflexivity.
Qed.

Lemma prefix_app p r : String.prefix p (p ++ r) = true.
Proof.
  induction p as [|c p IH]; simpl; [destruct r; reflexivity|].
  destruct (ascii_dec c c); [exact IH|congruence].
Qed.

Lemma prefix_inv p s : String.prefix p s = true -> exists r, s = (p ++ r)%string.
Proof.
  revert s. induction p as [|c p IH]; intros s H; [exists s; reflexivity|].
  destruct s as [|c' s]; simpl in H; [discriminate|].
  destruct (ascii_dec c c'); [subst c'|discriminate].
  destruct (IH s H) as [r ->]. exists r. reflexivity.
Qed.

Lemma append_assoc a b c : ((a ++ b) ++ c)%string = (a ++ (b ++ c))%string.
Proof. induction a as [|x a IH]; simpl; [reflexivity|]. rewrite IH. reflexivity. Qed.

Lemma string_length_append a b :
  String.length (a ++ b)%string = (String.length a + String.length b)%nat.
Proof. induction a as [|x a IH]; simpl; [reflexivity|]. rewrite IH. reflexivity. Qed.

Lemma rtrim_split s : exists r, s = (rtrim s ++ r)%string.
Proof.
  induction s as [|c s [r Hr]]; [exists EmptyString; reflexivity|]. simpl.
  destruct (rtrim s) as [|c' s'] eqn:E.
  - destruct (is_ws c).
    + exists (String c s). reflexivity.
    + exists s. reflexivity.
  - exists r. simpl. rewrite Hr at 1. reflexivity.
Qed.

Lemma ltrim_cons_nonws c s : is_ws c = false -> ltrim (String c s) = String c s.
Proof. intros H. simpl. rewrite H. reflexivity. Qed.

Lemma rtrim_cons_nonws c s : is_ws c = false -> rtrim (String c s) = String c (rtrim s).
Proof.
  intros H. simpl. destruct (rtrim s); [rewrite H|]; reflexivity.
Qed.

Lemma substring_app n p r :
  String.length p <= n ->
  substring 0 n (p ++ r) = (p ++ substring 0 (n - String.length p) r)%string.
Proof.
  revert n. induction p as [|c p IH]; intros n H; simpl.
  - rewrite Nat.sub_0_r. reflexivity.
  - destruct n as [|n]; simpl in H; [lia|]. simpl. f_equal. apply IH. lia.
Qed.

(** The [<svg] check survives a cut that keeps the leading whitespace and
    the four characters of the tag. *)
Lemma svg_survives_cut s n :
  startsWith "<svg" (trim s) = true -> leading_ws s + 4 <= n ->
  startsWith "<svg" (trim (prefix_upto n s)) = true.
Proof.
  unfold prefix_upto, startsWith, trim.
  revert n. induction s as [|c s IH]; intros n Hs Hn; [discriminate|].
  simpl in Hn. destruct (is_ws c) eqn:Hc.
  - destruct n as [|n]; [lia|]. simpl in Hs |- *. rewrite Hc in Hs |- *.
    apply IH; [exact Hs|lia].
  - assert (Hl : ltrim (String c s) = String c s) by (simpl; rewrite Hc; reflexivity).
    rewrite Hl in Hs.
    destruct (prefix_inv _ _ Hs) as [r1 Hr1].
    destruct (rtrim_split (String c s)) as [r2 Hr2].
    rewrite Hr1 in Hr2. rewrite Hr2.
    rewrite (append_assoc "<svg" r1 r2).
    rewrite substring_app by (simpl; lia).
    set (x := substring 0 _ _).
    change ("<svg" ++ x)%string with (String "<" (String "s" (String "v" (String "g" x)))).
    rewrite ltrim_cons_nonws by reflexivity.
    rewrite !rtrim_cons_nonws by reflexivity.
    apply (prefix_app "<svg").
Qed.

End StringFacts.

(** ** [clampAnswer] *)

Module ClampFacts.
Import JSString AnswerSchema StringFacts.
Local Open Scope nat_scope.

Lemma forallb_map {A B} (f : B -> bool) (g : A -> B) l :
  forallb f (List.map g l) = forallb (fun x => f (g x)) l.
Proof. induction l as [|x l IH]; simpl; [reflexivity|]. rewrite IH. reflexivity. Qed.

Lemma forallb_ext' {A} (f g : A -> bool) l :
  (forall x, f x = g x) -> forallb f l = forallb g l.
Proof. intros H. induction l as [|x l IH]; simpl; [reflexivity|]. rewrite H, IH. reflexivity. Qed.

Lemma step_ok_clamp s : step_ok (clampStep s) = step_ok s.
Proof.
  unfold step_ok, clampStep. simpl.
  rewrite !nonempty_prefix_upto by lia. reflexivity.
Qed.

Lemma decision_ok_clamp d : decision_ok (clampDecision d) = decision_ok d.
Proof.
  unfold decision_ok, clampDecision. simpl.
  rewrite !nonempty_prefix_upto by lia. reflexivity.
Qed.

Lemma citation_ok_clamp c : citation_ok (clampCitation c) = citation_ok_unbounded c.
Proof.
  unfold citation_ok, citation_ok_unbounded, clampCitation. simpl.
  rewrite nonempty_prefix_upto by lia.
  assert (Hq : Nat.leb (String.length (prefix_upto 180 (quote c))) 180 = true).
  { apply Nat.leb_le. rewrite prefix_upto_length. lia. }
  rewrite Hq, andb_true_r. reflexivity.
Qed.

Lemma diagram_ok_clamp d :
  diagram_ok d = true -> leading_ws (svg d) + 4 <= 10000 ->
  diagram_ok (clampDiagram d) = true.
Proof.
  unfold diagram_ok, clampDiagram. simpl. intros H Hw.
  apply andb_true_iff in H as [H Hs]. apply andb_true_iff in H as [Hc Hn].
  rewrite !nonempty_prefix_upto by lia. rewrite Hc, Hn. simpl.
  apply svg_survives_cut; assumption.
Qed.

Lemma clamp_some a :
  forall ps dts ds ws,
  prereqs a = Some ps -> decision_tree a = Some dts ->
  diagrams a = Some ds -> warnings a = Some ws ->
  clampAnswer a =
    Some (mkAnswer
            (prefix_upto 200 (answer_title a))
            (prefix_upto 1000 (one_paragraph_summary a))
            (Some (List.map (prefix_upto 300) ps))
            (List.map clampStep (steps a))
            (Some (List.map clampDecision dts))
            (Some (List.map clampDiagram ds))
            (List.map clampCitation (citations a))
            (Some (List.map (prefix_upto 300) ws))).
Proof. intros ps dts ds ws Hp Hd Hg Hw. unfold clampAnswer. rewrite Hp, Hd, Hg, Hw. reflexivity. Qed.

Lemma clamp_arrays a a' :
  clampAnswer a = Some a' ->
  exists ps dts ds ws, prereqs a = Some ps /\ decision_tree a = Some dts /\
    diagrams a = Some ds /\ warnings a = Some ws.
Proof.
  unfold clampAnswer.
  destruct (prereqs a), (decision_tree a), (diagrams a), (warnings a); try discriminate.
  intros _. do 4 eexists. repeat split.
Qed.

(** After clamping, only non-length conditions can fail. *)
Lemma clamp_answer_ok a a' :
  clampAnswer a = Some a' ->
  answer_ok_unbounded a = true -> svg_tags_within_cut a = true ->
  answer_ok a' = true.
Proof.
  intros Hc Hok Hsvg.
  destruct (clamp_arrays a a' Hc) as (ps & dts & ds & ws & Hp & Hd & Hg & Hw).
  rewrite (clamp_some a ps dts ds ws Hp Hd Hg Hw) in Hc. injection Hc as <-.
  unfold answer_ok_unbounded, svg_tags_within_cut in *.
  rewrite Hd, Hg in Hok. rewrite Hg in Hsvg. simpl in Hsvg.
  unfold answer_ok.
  cbn [answer_title one_paragraph_summary steps decision_tree diagrams citations default_nil].
  rewrite !length_map, !forallb_map.
  rewrite !nonempty_prefix_upto by lia.
  repeat rewrite andb_true_iff in Hok.
  destruct Hok as [[[[[[[[H1 H2] H3] H4] H5] H6] H7] H8] H9].
  cbn [default_nil] in H5, H6.
  rewrite H1, H2, H3, H7, H8. simpl.
  repeat (apply andb_true_iff; split); try reflexivity.
  - rewrite (forallb_ext' _ step_ok _ step_ok_clamp). exact H4.
  - rewrite (forallb_ext' _ decision_ok _ decision_ok_clamp). exact H5.
  - apply forallb_forall. intros d Hin.
    rewrite forallb_forall in H6, Hsvg.
    apply diagram_ok_clamp; [apply H6, Hin|].
    apply Nat.leb_le. apply Hsvg, Hin.
  - rewrite (forallb_ext' _ citation_ok_unbounded _ citation_ok_clamp). exact H9.
Qed.

End ClampFacts.

(** Claim C10.  Whenever [clampAnswer] returns, it changed string contents
    only: every array keeps its number of elements (prereqs, steps, each
    step's shell list, decision_tree, diagrams, citations, warnings) and
    every non-string field is unchanged (each step's os list and
    est_minutes, each decision-tree entry's link_step, each citation's
    url). *)
Theorem clampAnswer_preserves_shape (a a' : AnswerSchema.Answer)
  (H : AnswerSchema.clampAnswer a = Some a') :
  option_map (@length string) (AnswerSchema.prereqs a')
    = option_map (@length string) (AnswerSchema.prereqs a) /\
  length (AnswerSchema.steps a') = length (AnswerSchema.steps a) /\
  List.map AnswerSchema.os (AnswerSchema.steps a') = List.map AnswerSchema.os (AnswerSchema.steps a) /\
  List.map AnswerSchema.est_minutes (AnswerSchema.steps a')
    = List.map AnswerSchema.est_minutes (AnswerSchema.steps a) /\
  List.map (fun s => option_map (@length string) (AnswerSchema.shell s)) (AnswerSchema.steps a')
    = List.map (fun s => option_map (@length string) (AnswerSchema.shell s)) (AnswerSchema.steps a) /\
  option_map (@length AnswerSchema.DecisionTree) (AnswerSchema.decision_tree a')
    = option_map (@length AnswerSchema.DecisionTree) (AnswerSchema.decision_tree a) /\
  option_map (List.map AnswerSchema.link_step) (AnswerSchema.decision_tree a')
    = option_map (List.map AnswerSchema.link_step) (AnswerSchema.decision_tree a) /\
  option_map (@length AnswerSchema.Diagram) (AnswerSchema.diagrams a')
    = option_map (@length AnswerSchema.Diagram) (AnswerSchema.diagrams a) /\
  length (AnswerSchema.citations a') = length (AnswerSchema.citations a) /\
  List.map AnswerSchema.url (AnswerSchema.citations a')
    = List.map AnswerSchema.url (AnswerSchema.citations a) /\
  option_map (@length string) (AnswerSchema.warnings a')
    = option_map (@length string) (AnswerSchema.warnings a).
Proof.
  destruct (ClampFacts.clamp_arrays a a' H) as (ps & dts & ds & ws & Hp & Hd & Hg & Hw).
  rewrite (ClampFacts.clamp_some a ps dts ds ws Hp Hd Hg Hw) in H. injection H as <-.
  rewrite Hp, Hd, Hg, Hw. simpl.
  rewrite !length_map, !map_map.
  repeat split.
  apply map_ext. intros s. unfold AnswerSchema.clampStep. simpl.
  destruct (AnswerSchema.shell s); simpl; [rewrite length_map|]; reflexivity.
Qed.

(* ------------------------------------------------------------------ *)
(** ** The tool-calling loop *)

Module LoopFacts.
Import Orchestrator.
Local Open Scope nat_scope.

Lemma tool_loop_requests_le env n k msgs :
  snd (tool_loop env n k msgs) <= n.
Proof.
  revert k msgs. induction n as [|n IH]; intros k msgs; simpl; [lia|].
  destruct (chat env msgs) as [e| |c calls]; simpl; try lia.
  destruct calls as [|tc tcs]; simpl; [lia|].
  match goal with |- context [tool_loop env n ?k' ?m'] =>
    specialize (IH k' m'); destruct (tool_loop env n k' m') as [r q] end.
  simpl in *. lia.
Qed.

Lemma tool_loop_always_calls env
  (Hcalls : forall msgs, exists c tc tcs, chat env msgs = Reply c (tc :: tcs)) :
  forall n k msgs,
    exists msgs', tool_loop env n k msgs = (Ok (mkLoopOut EmptyString msgs' (n + k)), n).
Proof.
  induction n as [|n IH]; intros k msgs; simpl.
  - eexists. reflexivity.
  - destruct (Hcalls msgs) as (c & tc & tcs & Hc). rewrite Hc.
    match goal with |- context [tool_loop env n ?k' ?m'] =>
      destruct (IH k' m') as [msgs' Hl]; rewrite Hl end.
    exists msgs'. do 3 f_equal. lia.
Qed.

End LoopFacts.

(** Claim C5.  [answerIssue] always terminates (it is a total function
    here) and sends at most [maxToolCalls] = 3 requests in its tool loop,
    whatever the model answers.  If the model asks for tool calls in every
    round, the call fails with the message of the exhausted tool budget. *)
Theorem answerIssue_tool_budget (env : Orchestrator.Env) (issue os device : string)
  (Hkey : Orchestrator.openai_api_key env <> EmptyString)
  (Hcalls : forall msgs, exists c tc tcs,
      Orchestrator.chat env msgs = Orchestrator.Reply c (tc :: tcs)) :
  (forall env' k msgs, (snd (Orchestrator.tool_loop env' Orchestrator.maxToolCalls k msgs) <= 3)%nat) /\
  Orchestrator.answerIssue env issue os device
    = Orchestrator.Err
        "Unable to process your request: Failed to get final response after tool calls".
Proof.
  split.
  - intros env' k msgs. apply LoopFacts.tool_loop_requests_le.
  - unfold Orchestrator.answerIssue.
    destruct (String.eqb_spec (Orchestrator.openai_api_key env) EmptyString) as [E|_];
      [contradiction|].
    unfold Orchestrator.answerIssue_body.
    destruct (LoopFacts.tool_loop_always_calls env Hcalls (Orchestrator.maxToolCalls - 0) 0
                (Orchestrator.initial_messages issue os device)) as [msgs' Hl].
    rewrite Hl. reflexivity.
Qed.

(** Claim C1 (the repair round can make the call fail).  [ans0] passes
    clamping and validation, and its two citations share one domain.  If
    the addendum holds a citation with an empty title, the spliced list is
    stored before its re-validation fails, and the final [validateAnswer]
    rejects it.  If the addendum request rejects, the error leaves
    [answerIssue].  In both cases the call fails instead of returning
    [ans0]. *)
Theorem answerIssue_repair_escalates :
  Orchestrator.validate_stage Examples.ans0 = Orchestrator.Ok Examples.ans0 /\
  AnswerSchema.distinctDomainsOK (AnswerSchema.citations Examples.ans0) = false /\
  Orchestrator.answerIssue Examples.env_bad_addendum "My Wi-Fi keeps dropping" "Windows" "Laptop"
    = Orchestrator.Err "Unable to process your request: ZodError" /\
  Orchestrator.answerIssue Examples.env_addendum_throws "My Wi-Fi keeps dropping" "Windows" "Laptop"
    = Orchestrator.Err "Unable to process your request: Request timed out.".
Proof.
  repeat split; vm_compute; reflexivity.
Qed.

(** Claim C6 (code bug).  [clampAnswer] cuts a 300-character title to
    200 characters and the answer is accepted.  But the clamp that runs
    before validation rejects answers the schema accepts.
    [ans_no_warnings] satisfies the schema (which defaults [warnings] to
    []), yet [clampAnswer] maps over the absent array and throws a
    [TypeError], so [answerIssue] fails.  [ans_padded_svg] satisfies the
    schema too, but cutting its SVG at 10000 characters leaves only
    blanks, so the clamped answer fails validation and [answerIssue]
    fails. *)
Theorem clamp_before_validation_rejects_valid_answers :
  match AnswerSchema.clampAnswer Examples.ans_long_title with
  | Some a' =>
      String.length (AnswerSchema.answer_title a') = 200%nat /\
      Orchestrator.answerIssue (Examples.env_answer Examples.ans_long_title)
        "My Wi-Fi keeps dropping" "Windows" "Laptop"
        = Orchestrator.Ok (AnswerSchema.with_defaults a')
  | None => False
  end /\
  AnswerSchema.answer_ok Examples.ans_no_warnings = true /\
  AnswerSchema.clampAnswer Examples.ans_no_warnings = None /\
  Orchestrator.answerIssue (Examples.env_answer Examples.ans_no_warnings)
    "My Wi-Fi keeps dropping" "Windows" "Laptop"
    = Orchestrator.Err ("Unable to process your request: " ++ Orchestrator.map_of_undefined) /\
  AnswerSchema.answer_ok Examples.ans_padded_svg = true /\
  Orchestrator.answerIssue (Examples.env_answer Examples.ans_padded_svg)
    "My Wi-Fi keeps dropping" "Windows" "Laptop"
    = Orchestrator.Err "Unable to process your request: Response does not match required schema".
Proof.
  split; [vm_compute; split; reflexivity|].
  repeat split; vm_compute; reflexivity.
Qed.

Module RouteFacts.
Import Route.

Lemma retry_after_bounds now : (0 <= now)%Z -> (1 <= retry_after now <= 600)%Z.
Proof.
  intros Hn. unfold retry_after, rateLimitWindow.
  pose proof (Z.rem_bound_pos now (10 * 60 * 1000) Hn ltac:(lia)) as Hr.
  set (x := (10 * 60 * 1000 - Z.rem now (10 * 60 * 1000))%Z).
  assert (Hx : (1 <= x <= 600000)%Z) by (unfold x; lia).
  pose proof (Z.div_mod (- x) 1000 ltac:(lia)) as Hd.
  pose proof (Z.mod_pos_bound (- x) 1000 ltac:(lia)) as Hm.
  lia.
Qed.

End RouteFacts.

(** Claim C8.  When the rate limiter denies the client, [POST] records no
    body parse, no cache lookup and no orchestrator call: its trace is the
    one [consume].  The response does not depend on the orchestrator's
    environment.  It is a 429 with the rate-limit error, a [retryAfter] of
    1 to 600 seconds (for a non-negative clock), the remaining-token
    header, and the cache left as it was. *)
Theorem POST_denied_never_orchestrates (env : Orchestrator.Env) (clk : Route.Clock)
  (srv : Route.Server) (req : Route.Request)
  (Hdeny : fst (RateLimit.consume (Route.t_consume clk)
                  (Route.client_ip (Route.x_forwarded_for req) (Route.x_real_ip req))
                  (Route.rateLimiter_state srv)) = false) :
  let ip := Route.client_ip (Route.x_forwarded_for req) (Route.x_real_ip req) in
  let rl1 := snd (RateLimit.consume (Route.t_consume clk) ip (Route.rateLimiter_state srv)) in
  snd (fst (Route.POST env clk srv req)) = [Route.ConsumeToken ip] /\
  fst (fst (Route.POST env clk srv req))
    = Route.mkResponse 429
        (Route.RateLimited "Rate limit exceeded. Please try again later."
           (Route.retry_after (Route.t_now clk)))
        (Some (RateLimit.getRemainingTokens (Route.t_now clk) ip rl1))
        (Some (Route.t_now clk + Route.rateLimitWindow)) None /\
  Route.cache_state (snd (Route.POST env clk srv req)) = Route.cache_state srv /\
  (forall env' : Orchestrator.Env, Route.POST env' clk srv req = Route.POST env clk srv req) /\
  ((0 <= Route.t_now clk)%Z -> (1 <= Route.retry_after (Route.t_now clk) <= 600)%Z).
Proof.
  intros ip rl1. subst ip rl1. unfold Route.POST.
  destruct (RateLimit.consume (Route.t_consume clk)
              (Route.client_ip (Route.x_forwarded_for req) (Route.x_real_ip req))
              (Route.rateLimiter_state srv)) as [allowed r] eqn:E.
  simpl in Hdeny. subst allowed. simpl.
  split; [reflexivity|]. split; [reflexivity|]. split; [reflexivity|]. split.
  - intros env'. reflexivity.
  - apply RouteFacts.retry_after_bounds.
Qed.

(** Witness for C8: a client whose bucket is empty. *)
Lemma POST_denied_never_orchestrates_witness :
  snd (fst (Route.POST Examples.env_tools_forever (Route.mkClock 1000 1000)
              Route.drained_server Route.sample_request))
    = [Route.ConsumeToken "203.0.113.5"] /\
  Route.status (fst (fst (Route.POST Examples.env_tools_forever (Route.mkClock 1000 1000)
                            Route.drained_server Route.sample_request))) = 429%Z.
Proof.
  assert (Hd : fst (RateLimit.consume 1000 "203.0.113.5"
                      (Route.rateLimiter_state Route.drained_server)) = false)
    by (vm_compute; reflexivity).
  destruct (POST_denied_never_orchestrates Examples.env_tools_forever (Route.mkClock 1000 1000)
              Route.drained_server Route.sample_request Hd) as (Ht & Hr & _).
  split.
  - exact Ht.
  - rewrite Hr. reflexivity.
Defined.

Module FetchPageFacts.
Import JSString FetchPage.
Local Open Scope nat_scope.

(** [lia] reads [40 * 1000], not the decimal form of a large numeral. *)
Ltac small_numerals :=
  try change 40000 with (40 * 1000) in *;
  try change 40003 with (40 * 1000 + 3) in *.

Lemma collect_headings_length acc es :
  length acc <= 20 -> length (collect_headings acc es) <= 20.
Proof.
  revert acc. induction es as [|e es IH]; intros acc Hacc; simpl; [exact Hacc|].
  apply IH.
  destruct (Nat.ltb_spec (length acc) 20) as [Hlt|Hge]; [|exact Hacc].
  destruct (negb (String.eqb (trim e) EmptyString)); [|exact Hacc].
  rewrite length_app. simpl. lia.
Qed.

Lemma collect_headings_from acc es h :
  In h (collect_headings acc es) ->
  In h acc \/ exists e, In e es /\ h = trim e /\ h <> EmptyString.
Proof.
  revert acc. induction es as [|e es IH]; intros acc Hin; simpl in Hin; [left; exact Hin|].
  destruct (IH _ Hin) as [Hacc|(e' & He' & Hh & Hne)].
  - destruct (Nat.ltb (length acc) 20); [|left; exact Hacc].
    destruct (String.eqb_spec (trim e) EmptyString) as [E|E]; simpl in Hacc; [left; exact Hacc|].
    apply in_app_or in Hacc as [Hacc|[<-|[]]]; [left; exact Hacc|].
    right. exists e. split; [left; reflexivity|]. split; [reflexivity|exact E].
  - right. exists e'. split; [right; exact He'|]. split; assumption.
Qed.

Lemma truncate_clean_text_cases t :
  (String.length t <= 40000 /\ truncate_clean_text t = t) \/
  (40000 < String.length t /\ truncate_clean_text t = (prefix_upto 40000 t ++ "...")%string).
Proof.
  unfold truncate_clean_text.
  destruct (Nat.ltb_spec 40000 (String.length t)) as [H|H]; [right|left]; split; auto.
Qed.

Lemma truncate_clean_text_length t : String.length (truncate_clean_text t) <= 40003.
Proof.
  destruct (truncate_clean_text_cases t) as [[H E]|[H E]]; rewrite E; small_numerals; [lia|].
  rewrite StringFacts.string_length_append, StringFacts.prefix_upto_length.
  change (String.length "...") with 3. lia.
Qed.

(** A run of one non-blank character passes through the text pipeline. *)
Lemma repeat_char_length n c : String.length (repeat_char n c) = n.
Proof. induction n as [|n IH]; simpl; [reflexivity|]. rewrite <- IH at 2. reflexivity. Qed.

Lemma repeat_char_S n c : repeat_char (S n) c = String c (repeat_char n c).
Proof. reflexivity. Qed.

Lemma collapse_repeat n b : collapse_aux b (repeat_char n "a") = repeat_char n "a".
Proof.
  revert b. induction n as [|n IH]; intros b; [reflexivity|].
  rewrite repeat_char_S. simpl. rewrite IH. reflexivity.
Qed.

Lemma newlines_repeat n b : newlines_aux b (repeat_char n "a") = repeat_char n "a".
Proof.
  revert b. induction n as [|n IH]; intros b; [reflexivity|].
  rewrite repeat_char_S. simpl. rewrite IH. reflexivity.
Qed.

Lemma trim_repeat n : trim (repeat_char n "a") = repeat_char n "a".
Proof.
  unfold trim. destruct n as [|n]; [reflexivity|].
  rewrite repeat_char_S, StringFacts.ltrim_cons_nonws by reflexivity.
  rewrite <- repeat_char_S. induction (S n) as [|m IH]; [reflexivity|].
  rewrite repeat_char_S, StringFacts.rtrim_cons_nonws, IH by reflexivity. reflexivity.
Qed.

End FetchPageFacts.

(** Claim C9, counterexample.  A page whose body text is 40001 letters
    gives a [clean_text] of 40003 characters: the first 40000 characters
    and the three dots of the ellipsis. *)
Lemma fetch_page_exceeds_40000 :
  String.length (FetchPage.clean_text
                   (FetchPage.fetch_page FetchPage.long_page_env "https://example.com/wifi"))
    = 40003%nat.
Proof.
  change (FetchPage.fetch_page FetchPage.long_page_env "https://example.com/wifi")
    with (FetchPage.mkPageContent
            (FetchPage.truncate_clean_text
               (JSString.trim (FetchPage.newlines_aux false
                  (FetchPage.collapse_aux false (JSString.repeat_char 40001 "a")))))
            (FetchPage.collect_headings [] ["Fix Wi-Fi"])).
  cbn [FetchPage.clean_text].
  rewrite FetchPageFacts.collapse_repeat, FetchPageFacts.newlines_repeat,
    FetchPageFacts.trim_repeat.
  destruct (FetchPageFacts.truncate_clean_text_cases (JSString.repeat_char 40001 "a"))
    as [[H _]|[_ E]].
  - exfalso. rewrite FetchPageFacts.repeat_char_length in H. change 40001%nat with (40 * 1000 + 1)%nat in H.
    change 40000%nat with (40 * 1000)%nat in H. lia.
  - rewrite E, StringFacts.string_length_append, StringFacts.prefix_upto_length,
      FetchPageFacts.repeat_char_length.
    change (String.length "...") with 3%nat.
    change 40001%nat with (40 * 1000 + 1)%nat. change 40000%nat with (40 * 1000)%nat.
    change 40003%nat with (40 * 1000 + 3)%nat. lia.
Qed.

(** Claim C9 (amended).  [fetch_page] always returns a page.  Suppose the
    request rejects, the response is not OK, its text cannot be read, or
    the parser throws.  Then it returns the placeholder [Unable to fetch
    content from <url>. Please check the URL and try again.] with no
    headings.  Otherwise the body text is collapsed and trimmed.  It is
    returned whole when it has at most 40000 characters.  Otherwise it
    becomes its first 40000 characters followed by [...], so the
    [clean_text] has at most 40003 characters.  There are at most 20
    headings.  Each is the trimmed, non-empty text of an [h1], [h2] or
    [h3] element. *)
Theorem fetch_page_contract (env : FetchPage.FetchEnv) (url : string) :
  let p := FetchPage.fetch_page env url in
  (forall html dom,
     FetchPage.fetch env url = FetchPage.HttpResponse true (Some html) ->
     FetchPage.cheerio_load env html = Some dom ->
     let t := JSString.trim (FetchPage.replace_newlines
                               (FetchPage.collapse_ws (FetchPage.body_text dom))) in
     (((String.length t <= 40000)%nat /\ FetchPage.clean_text p = t) \/
      ((40000 < String.length t)%nat /\
       FetchPage.clean_text p = (JSString.prefix_upto 40000 t ++ "...")%string)) /\
     (String.length (FetchPage.clean_text p) <= 40003)%nat /\
     (length (FetchPage.headings p) <= 20)%nat /\
     (forall h, In h (FetchPage.headings p) ->
        exists e, In e (FetchPage.heading_texts dom) /\ h = JSString.trim e /\ h <> EmptyString)) /\
  ((FetchPage.fetch env url = FetchPage.FetchRejects \/
    (exists text, FetchPage.fetch env url = FetchPage.HttpResponse false text) \/
    FetchPage.fetch env url = FetchPage.HttpResponse true None \/
    (exists html, FetchPage.fetch env url = FetchPage.HttpResponse true (Some html) /\
                  FetchPage.cheerio_load env html = None)) ->
   p = FetchPage.failure_page url).
Proof.
  intros p. subst p. unfold FetchPage.fetch_page. split.
  - intros html dom Ef Ec. rewrite Ef, Ec.
    cbn [FetchPage.clean_text FetchPage.headings]. split; [|split; [|split]].
    + apply FetchPageFacts.truncate_clean_text_cases.
    + apply FetchPageFacts.truncate_clean_text_length.
    + apply FetchPageFacts.collect_headings_length. simpl. lia.
    + intros h Hin. destruct (FetchPageFacts.collect_headings_from [] _ h Hin) as [[]|He].
      exact He.
  - intros [E|[[text E]|[E|(html & E & Ec)]]]; rewrite E; [reflexivity|reflexivity|reflexivity|].
    rewrite Ec. reflexivity.
Qed.

(** Witness for C9: a request that rejects, and a short page with 25
    headings. *)
Lemma fetch_page_contract_witness :
  FetchPage.fetch_page (FetchPage.mkFetchEnv (fun _ => FetchPage.FetchRejects) (fun _ => None))
      "https://example.com/wifi"
    = FetchPage.failure_page "https://example.com/wifi" /\
  (length (FetchPage.headings
             (FetchPage.fetch_page FetchPage.small_page_env "https://example.com/wifi")) <= 20)%nat.
Proof.
  split.
  - apply (fetch_page_contract
             (FetchPage.mkFetchEnv (fun _ => FetchPage.FetchRejects) (fun _ => None))
             "https://example.com/wifi").
    left. reflexivity.
  - destruct (fetch_page_contract FetchPage.small_page_env "https://example.com/wifi") as [Hs _].
    exact (proj1 (proj2 (proj2 (Hs "<html>...</html>"
             (FetchPage.mkDom (" " :: List.repeat "Step" 24) "  Restart   the router. ")
             eq_refl eq_refl)))).
Defined.

(** Witness for C3: the route's cache, capacity 100 and a 6-hour TTL. *)
Lemma lru_size_never_exceeds_capacity_witness :
  (1 <= 100)%Z /\
  (Z.of_nat (LRU.size (LRU.run [LRU.OpSet 0 "k1" 1%nat; LRU.OpSet 5 "k2" 2%nat; LRU.OpGet 9 "k1"]
                        (LRU.new_cache 100 6))) <= 100)%Z.
Proof.
  assert (Hcap : (1 <= 100)%Z) by lia.
  split; [exact Hcap|].
  apply (proj1 (lru_size_never_exceeds_capacity nat 100 6 Hcap)).
Defined.

(** Witness for C4: a key stored at time 0 and read one second later. *)
Lemma lru_get_expiry_and_recency_witness :
  JSMap.get "k" (LRU.cache (LRU.set 0 "k" 42%nat (LRU.new_cache 100 6))) = Some (LRU.mkItem 42%nat 0) /\
  fst (LRU.get 1000 "k" (LRU.set 0 "k" 42%nat (LRU.new_cache 100 6))) = Some 42%nat.
Proof.
  assert (Hin : JSMap.get "k" (LRU.cache (LRU.set 0 "k" 42%nat (LRU.new_cache 100 6)))
                = Some (LRU.mkItem 42%nat 0)) by (vm_compute; reflexivity).
  split; [exact Hin|].
  destruct (lru_get_expiry_and_recency nat 1000 "k" _ _ Hin) as (_ & Hfresh & _).
  rewrite Hfresh; [reflexivity|].
  apply Z.leb_le. vm_compute. reflexivity.
Defined.

(** Witness for C2: a client with no bucket yet. *)
Lemma consume_burst_then_deny_witness :
  JSMap.get "203.0.113.5" (@nil (string * RateLimit.Bucket)) = None /\
  fst (RateLimit.consume_n 11 1000 "203.0.113.5" (RateLimit.with_buckets RateLimit.rateLimiter []))
    = repeat true 10 ++ [false].
Proof.
  assert (Hfresh : JSMap.get "203.0.113.5" (@nil (string * RateLimit.Bucket)) = None)
    by reflexivity.
  split; [exact Hfresh|].
  apply (proj1 (consume_burst_then_deny 1000 "203.0.113.5" [] Hfresh)).
Defined.

(** Witness for C10: clamping [ans0] keeps its single step. *)
Lemma clampAnswer_preserves_shape_witness :
  exists a', AnswerSchema.clampAnswer Examples.ans0 = Some a' /\
    length (AnswerSchema.steps a') = length (AnswerSchema.steps Examples.ans0).
Proof.
  pose (a' := match AnswerSchema.clampAnswer Examples.ans0 with
              | Some a => a | None => Examples.ans0 end).
  assert (E : AnswerSchema.clampAnswer Examples.ans0 = Some a') by (vm_compute; reflexivity).
  exists a'. split; [exact E|].
  exact (proj1 (proj2 (clampAnswer_preserves_shape Examples.ans0 a' E))).
Defined.

(** Witness for C5: a model that always asks for [search_web]. *)
Lemma answerIssue_tool_budget_witness :
  Orchestrator.answerIssue Examples.env_tools_forever "My Wi-Fi keeps dropping" "Windows" "Laptop"
    = Orchestrator.Err
        "Unable to process your request: Failed to get final response after tool calls".
Proof.
  assert (Hkey : Orchestrator.openai_api_key Examples.env_tools_forever <> EmptyString)
    by discriminate.
  assert (Hcalls : forall msgs, exists c tc tcs,
             Orchestrator.chat Examples.env_tools_forever msgs = Orchestrator.Reply c (tc :: tcs)).
  { intros msgs. do 3 eexists. reflexivity. }
  exact (proj2 (answerIssue_tool_budget Examples.env_tools_forever
                  "My Wi-Fi keeps dropping" "Windows" "Laptop" Hkey Hcalls)).
Defined.

(* ------------------------------------------------------------------ *)
(** ** More on the rate limiter *)

Module RateLimitRunFacts.
Import RateLimit RateLimitRuns.

Lemma get_map_other {A} k k' (v : A) (m : JSMap.t A) :
  String.eqb k k' = false ->
  JSMap.get k' (List.map (fun p => if String.eqb (fst p) k then (k, v) else p) m) = JSMap.get k' m.
Proof.
  intros Hne. induction m as [|[k1 x] m IH]; simpl; [reflexivity|].
  destruct (String.eqb k1 k) eqn:E1; simpl.
  - apply String.eqb_eq in E1. subst k1. rewrite Hne. exact IH.
  - rewrite IH. reflexivity.
Qed.

Lemma get_app_other {A} k k' (v : A) (m : JSMap.t A) :
  String.eqb k k' = false -> JSMap.get k' (m ++ [(k, v)]) = JSMap.get k' m.
Proof.
  intros Hne. induction m as [|[k1 x] m IH]; simpl; [rewrite Hne; reflexivity|].
  rewrite IH. reflexivity.
Qed.

Lemma get_set {A} k k' (v : A) (m : JSMap.t A) :
  JSMap.get k' (JSMap.set k v m) = if String.eqb k k' then Some v else JSMap.get k' m.
Proof.
  destruct (String.eqb k k') eqn:E.
  - apply String.eqb_eq in E. subst k'. apply JSMapFacts.get_set_same.
  - unfold JSMap.set. destruct (JSMap.has k m).
    + apply get_map_other, E.
    + apply get_app_other, E.
Qed.

Lemma consume_spec now ip rl :
  fst (consume now ip rl) = Qle_bool 1 (tokens (refill now rl (current_bucket now ip rl))) /\
  snd (consume now ip rl) = with_buckets rl (JSMap.set ip (stored_bucket now ip rl) (buckets rl)).
Proof.
  unfold consume, stored_bucket. destruct (Qle_bool 1 _); split; reflexivity.
Qed.

Lemma consume_all_params calls rl :
  maxTokens (snd (consume_all calls rl)) = maxTokens rl /\
  refillRate (snd (consume_all calls rl)) = refillRate rl.
Proof.
  revert rl. induction calls as [|[now ip] calls IH]; intros rl; simpl; [split; reflexivity|].
  destruct (consume now ip rl) as [r rl'] eqn:E.
  destruct (consume_all calls rl') as [rs rl''] eqn:E2. simpl.
  specialize (IH rl'). rewrite E2 in IH. simpl in IH. destruct IH as [-> ->].
  pose proof (consume_spec now ip rl) as [_ Hs]. rewrite E in Hs. simpl in Hs.
  rewrite Hs. split; reflexivity.
Qed.

Lemma inject_Z_nonneg z : (0 <= z)%Z -> (0 <= inject_Z z)%Q.
Proof. intros H. change 0%Q with (inject_Z 0). rewrite <- Zle_Qle. exact H. Qed.

(** What [consume] does to the bucket it refills, from one whose tokens
    are not negative and whose refill time is not later than [now]. *)
Lemma stored_bucket_facts now ip rl :
  (0 <= maxTokens rl)%Q -> (0 <= refillRate rl)%Q ->
  (0 <= tokens (current_bucket now ip rl))%Q ->
  (lastRefill (current_bucket now ip rl) <= now)%Z ->
  let cb := current_bucket now ip rl in
  let t' := tokens (refill now rl cb) in
  (0 <= tokens (stored_bucket now ip rl))%Q /\
  (tokens (stored_bucket now ip rl) <= maxTokens rl)%Q /\
  lastRefill (stored_bucket now ip rl) = now /\
  (t' <= tokens cb + inject_Z (now - lastRefill cb) * refillRate rl)%Q /\
  (t' <= maxTokens rl)%Q /\
  tokens (stored_bucket now ip rl)
    = (if Qle_bool 1 t' then (t' - 1)%Q else t').
Proof.
  intros Hmx Hrate Htok Hlast cb t'.
  assert (Hd : (0 <= inject_Z (now - lastRefill cb) * refillRate rl)%Q).
  { apply Qmult_le_0_compat; [apply inject_Z_nonneg; unfold cb; lia|exact Hrate]. }
  assert (Ht0 : (0 <= t')%Q).
  { unfold t', refill. simpl. apply Q.min_glb; [exact Hmx|]. unfold cb in *. lra. }
  assert (Htmx : (t' <= maxTokens rl)%Q) by (unfold t', refill; simpl; apply Q.le_min_l).
  assert (Htle : (t' <= tokens cb + inject_Z (now - lastRefill cb) * refillRate rl)%Q)
    by (unfold t', refill; simpl; apply Q.le_min_r).
  unfold stored_bucket. fold cb. fold t'.
  destruct (Qle_bool 1 t') eqn:E; cbv iota beta; fold t'.
  - apply Qle_bool_iff in E. repeat split; simpl; lra.
  - repeat split; lra.
Qed.

Lemma current_bucket_fresh now ip rl :
  JSMap.get ip (buckets rl) = None -> current_bucket now ip rl = mkBucket (maxTokens rl) now.
Proof. unfold current_bucket. intros ->. reflexivity. Qed.

Lemma current_bucket_stored now ip rl b :
  JSMap.get ip (buckets rl) = Some b -> current_bucket now ip rl = b.
Proof. unfold current_bucket. intros ->. reflexivity. Qed.

Lemma consume_ok now ip rl tc :
  (0 <= maxTokens rl)%Q -> (0 <= refillRate rl)%Q -> (tc <= now)%Z ->
  (forall ip' b, JSMap.get ip' (buckets rl) = Some b -> bucket_ok (maxTokens rl) tc b) ->
  forall ip' b, JSMap.get ip' (buckets (snd (consume now ip rl))) = Some b ->
    bucket_ok (maxTokens rl) now b.
Proof.
  intros Hmx Hrate Hle Hok ip' b.
  destruct (consume_spec now ip rl) as [_ ->]. simpl. rewrite get_set.
  destruct (String.eqb ip ip') eqn:E.
  - intros Hb. injection Hb as <-.
    assert (Hcb : (0 <= tokens (current_bucket now ip rl))%Q /\
                  (lastRefill (current_bucket now ip rl) <= now)%Z).
    { destruct (JSMap.get ip (buckets rl)) as [b0|] eqn:Hg.
      - rewrite (current_bucket_stored _ _ _ _ Hg).
        destruct (Hok ip b0 Hg) as (H1 & _ & H3). split; [exact H1|lia].
      - rewrite (current_bucket_fresh _ _ _ Hg). simpl. split; [exact Hmx|lia]. }
    destruct Hcb as [Hc1 Hc2].
    destruct (stored_bucket_facts now ip rl Hmx Hrate Hc1 Hc2) as (H1 & H2 & H3 & _).
    unfold bucket_ok. rewrite H3. repeat split; [exact H1|exact H2|lia].
  - intros Hb. destruct (Hok ip' b Hb) as (H1 & H2 & H3). repeat split; [exact H1|exact H2|lia].
Qed.

Lemma last_default {A} (l : list A) d d' : l <> [] -> last l d = last l d'.
Proof.
  induction l as [|x l IH]; intros H; [congruence|].
  destruct l as [|y l]; [reflexivity|]. simpl. apply IH. discriminate.
Qed.

Lemma last_time_cons tc t ip calls : last_time tc ((t, ip) :: calls) = last_time t calls.
Proof.
  unfold last_time. destruct calls as [|p calls]; [reflexivity|].
  change (last ((t, ip) :: p :: calls) (tc, EmptyString)) with (last (p :: calls) (tc, EmptyString)).
  rewrite (last_default (p :: calls) (tc, EmptyString) (t, EmptyString)) by discriminate.
  reflexivity.
Qed.

Lemma last_time_ge tc calls : times_from tc calls = true -> (tc <= last_time tc calls)%Z.
Proof.
  revert tc. induction calls as [|[t ip] calls IH]; intros tc H; [unfold last_time; simpl; lia|].
  simpl in H. apply andb_true_iff in H as [H1 H2]. apply Z.leb_le in H1.
  rewrite last_time_cons. specialize (IH t H2). lia.
Qed.

Lemma consume_all_ok calls : forall rl tc,
  (0 <= maxTokens rl)%Q -> (0 <= refillRate rl)%Q ->
  (forall ip b, JSMap.get ip (buckets rl) = Some b -> bucket_ok (maxTokens rl) tc b) ->
  times_from tc calls = true ->
  forall ip b, JSMap.get ip (buckets (snd (consume_all calls rl))) = Some b ->
    bucket_ok (maxTokens rl) (last_time tc calls) b.
Proof.
  induction calls as [|[now ip] calls IH]; intros rl tc Hmx Hrate Hok Hmono.
  - exact Hok.
  - simpl in Hmono. apply andb_true_iff in Hmono as [Hle Hmono]. apply Z.leb_le in Hle.
    intros ip0 b. simpl.
    destruct (consume now ip rl) as [r rl'] eqn:E.
    destruct (consume_all calls rl') as [rs rl''] eqn:E2. simpl.
    pose proof (consume_ok now ip rl tc Hmx Hrate Hle Hok) as Hok'.
    rewrite E in Hok'. simpl in Hok'.
    assert (Hp : maxTokens rl' = maxTokens rl /\ refillRate rl' = refillRate rl).
    { destruct (consume_spec now ip rl) as [_ Hs]. rewrite E in Hs. simpl in Hs.
      rewrite Hs. split; reflexivity. }
    destruct Hp as [Hp1 Hp2].
    rewrite last_time_cons.
    intros Hb. rewrite <- Hp1.
    specialize (IH rl' now). rewrite E2 in IH. simpl in IH.
    refine (IH _ _ _ Hmono ip0 b Hb).
    + rewrite Hp1. exact Hmx.
    + rewrite Hp2. exact Hrate.
    + intros ip' b' Hb'. rewrite Hp1. exact (Hok' ip' b' Hb').
Qed.

Lemma inject_Z_S a : inject_Z (Z.of_nat (a + 1)) == inject_Z (Z.of_nat a) + 1.
Proof. rewrite Nat2Z.inj_add, inject_Z_plus. reflexivity. Qed.

Lemma consume_adm ip t0 now ip' rl tc a :
  (0 <= maxTokens rl)%Q -> (0 <= refillRate rl)%Q -> (t0 <= tc)%Z -> (tc <= now)%Z ->
  adm_inv ip t0 (maxTokens rl) (refillRate rl) rl tc a ->
  adm_inv ip t0 (maxTokens rl) (refillRate rl) (snd (consume now ip' rl)) now
    (a + (if String.eqb ip' ip && fst (consume now ip' rl) then 1 else 0)).
Proof.
  intros Hmx Hrate H0 Hle Hinv.
  destruct (consume_spec now ip' rl) as [Hr Hs]. rewrite Hr, Hs.
  unfold adm_inv in *. unfold with_buckets. cbn [buckets]. rewrite get_set.
  destruct (String.eqb ip' ip) eqn:E.
  - apply String.eqb_eq in E. subst ip'. cbn [andb].
    assert (Hcb : (0 <= tokens (current_bucket now ip rl))%Q /\
                  (lastRefill (current_bucket now ip rl) <= now)%Z).
    { destruct (JSMap.get ip (buckets rl)) as [b0|] eqn:Hg.
      - rewrite (current_bucket_stored _ _ _ _ Hg).
        destruct Hinv as (H1 & H2 & _). split; [exact H1|lia].
      - rewrite (current_bucket_fresh _ _ _ Hg). simpl. split; [exact Hmx|lia]. }
    destruct Hcb as [Hc1 Hc2].
    destruct (stored_bucket_facts now ip rl Hmx Hrate Hc1 Hc2) as (F1 & F2 & F3 & F4 & F5 & F6).
    rewrite F3. split; [exact F1|split; [lia|]].
    rewrite F6.
    assert (Hd : (0 <= inject_Z (now - t0) * refillRate rl)%Q).
    { apply Qmult_le_0_compat; [apply inject_Z_nonneg; lia|exact Hrate]. }
    set (t' := tokens (refill now rl (current_bucket now ip rl))) in *.
    destruct (JSMap.get ip (buckets rl)) as [b0|] eqn:Hg.
    + rewrite (current_bucket_stored _ _ _ _ Hg) in F4.
      destruct Hinv as (H1 & H2 & H3).
      assert (Hsplit : inject_Z (now - t0) * refillRate rl ==
                       inject_Z (lastRefill b0 - t0) * refillRate rl +
                       inject_Z (now - lastRefill b0) * refillRate rl).
      { replace (now - t0)%Z with ((lastRefill b0 - t0) + (now - lastRefill b0))%Z by lia.
        rewrite inject_Z_plus. apply Qmult_plus_distr_l. }
      destruct (Qle_bool 1 t') eqn:Et.
      * rewrite inject_Z_S. lra.
      * rewrite Nat.add_0_r. lra.
    + subst a. destruct (Qle_bool 1 t') eqn:Et.
      * change (inject_Z (Z.of_nat (0 + 1))) with 1%Q. lra.
      * change (inject_Z (Z.of_nat (0 + 0))) with 0%Q. lra.
  - cbn [andb]. rewrite Nat.add_0_r.
    destruct (JSMap.get ip (buckets rl)) as [b0|]; [|exact Hinv].
    destruct Hinv as (H1 & H2 & H3). repeat split; [exact H1|lia|lia|exact H3].
Qed.

Lemma consume_all_adm ip t0 calls : forall rl tc a,
  (0 <= maxTokens rl)%Q -> (0 <= refillRate rl)%Q -> (t0 <= tc)%Z ->
  times_from tc calls = true ->
  adm_inv ip t0 (maxTokens rl) (refillRate rl) rl tc a ->
  adm_inv ip t0 (maxTokens rl) (refillRate rl) (snd (consume_all calls rl))
    (last_time tc calls) (a + admitted_for ip calls (fst (consume_all calls rl))).
Proof.
  induction calls as [|[now ip'] calls IH]; intros rl tc a Hmx Hrate H0 Hmono Hinv.
  - simpl. rewrite Nat.add_0_r. exact Hinv.
  - simpl in Hmono. apply andb_true_iff in Hmono as [Hle Hmono]. apply Z.leb_le in Hle.
    pose proof (consume_adm ip t0 now ip' rl tc a Hmx Hrate H0 Hle Hinv) as Hstep.
    simpl. destruct (consume now ip' rl) as [r rl'] eqn:E.
    destruct (consume_all calls rl') as [rs rl''] eqn:E2. simpl in Hstep |- *.
    assert (Hp : maxTokens rl' = maxTokens rl /\ refillRate rl' = refillRate rl).
    { destruct (consume_spec now ip' rl) as [_ Hs]. rewrite E in Hs. simpl in Hs.
      rewrite Hs. split; reflexivity. }
    destruct Hp as [Hp1 Hp2].
    rewrite last_time_cons, Nat.add_assoc.
    specialize (IH rl' now (a + (if String.eqb ip' ip && r then 1 else 0))%nat).
    rewrite E2, Hp1, Hp2 in IH. simpl in IH.
    apply IH; [exact Hmx|exact Hrate|lia|exact Hmono|exact Hstep].
Qed.

Lemma stored_bucket_lastRefill now ip rl : lastRefill (stored_bucket now ip rl) = now.
Proof. unfold stored_bucket. destruct (Qle_bool 1 _); reflexivity. Qed.

Lemma last_call_bucket ip calls : forall rl,
  (last_call_for ip calls = None ->
     JSMap.get ip (buckets (snd (consume_all calls rl))) = JSMap.get ip (buckets rl)) /\
  (forall tl, last_call_for ip calls = Some tl ->
     exists b, JSMap.get ip (buckets (snd (consume_all calls rl))) = Some b /\ lastRefill b = tl).
Proof.
  induction calls as [|[now ip'] calls IH]; intros rl.
  - split; [reflexivity|discriminate].
  - simpl. destruct (consume now ip' rl) as [r rl'] eqn:E.
    destruct (consume_all calls rl') as [rs rl''] eqn:E2. simpl.
    specialize (IH rl'). rewrite E2 in IH. simpl in IH.
    destruct (last_call_for ip calls) as [t'|] eqn:L.
    + split; [discriminate|]. intros tl Htl. injection Htl as <-. apply IH. reflexivity.
    + destruct IH as [IH1 _]. rewrite (IH1 eq_refl).
      destruct (consume_spec now ip' rl) as [_ Hs]. rewrite E in Hs. simpl in Hs.
      rewrite Hs. unfold with_buckets. cbn [buckets]. rewrite get_set.
      destruct (String.eqb ip' ip) eqn:Ei.
      * split; [discriminate|]. intros tl Htl. injection Htl as <-.
        exists (stored_bucket now ip' rl). split; [reflexivity|apply stored_bucket_lastRefill].
      * split; [reflexivity|discriminate].
Qed.

Lemma rateLimiter_params : maxTokens rateLimiter = 10%Q /\ refillRate rateLimiter = (10 # 600000)%Q.
Proof. split; reflexivity. Qed.

End RateLimitRunFacts.

(** Starting from the route's limiter, with a clock that never goes back,
    every stored bucket holds between 0 and 10 tokens and was refilled
    no later than the last call; [getRemainingTokens] then reports a value
    between 0 and 10 at any later time. *)
Theorem rateLimiter_tokens_bounded (t0 : Z) (calls : list (Z * string)) :
  RateLimitRuns.times_from t0 calls = true ->
  let rl := snd (RateLimitRuns.consume_all calls RateLimit.rateLimiter) in
  (forall ip b, JSMap.get ip (RateLimit.buckets rl) = Some b ->
     (0 <= RateLimit.tokens b <= 10)%Q /\
     (RateLimit.lastRefill b <= RateLimitRuns.last_time t0 calls)%Z) /\
  (forall ip t, (RateLimitRuns.last_time t0 calls <= t)%Z ->
     (0 <= RateLimit.getRemainingTokens t ip rl <= 10)%Q).
Proof.
  intros Hmono rl.
  destruct RateLimitRunFacts.rateLimiter_params as [Hmx Hrate].
  destruct (RateLimitRunFacts.consume_all_params calls RateLimit.rateLimiter) as [Pmx Prate].
  fold rl in Pmx, Prate.
  assert (Hok : forall ip b, JSMap.get ip (RateLimit.buckets rl) = Some b ->
            RateLimitRuns.bucket_ok 10 (RateLimitRuns.last_time t0 calls) b).
  { intros ip b Hb. rewrite <- Hmx.
    refine (RateLimitRunFacts.consume_all_ok calls RateLimit.rateLimiter t0 _ _ _ Hmono ip b Hb);
      [rewrite Hmx; lra|rewrite Hrate; unfold Qle; simpl; lia|].
    intros ip' b' Hb'. discriminate Hb'. }
  split.
  - intros ip b Hb. destruct (Hok ip b Hb) as (H1 & H2 & H3). split; [split|]; assumption.
  - intros ip t Ht. unfold RateLimit.getRemainingTokens.
    destruct (JSMap.get ip (RateLimit.buckets rl)) as [b|] eqn:Hb.
    + destruct (Hok ip b Hb) as (H1 & H2 & H3).
      unfold RateLimit.refill. cbn [RateLimit.tokens]. rewrite Pmx, Prate, Hmx, Hrate.
      assert (Hd : (0 <= inject_Z (t - RateLimit.lastRefill b) * (10 # 600000))%Q).
      { apply Qmult_le_0_compat; [apply RateLimitRunFacts.inject_Z_nonneg; lia|].
        unfold Qle; simpl; lia. }
      split; [apply Q.min_glb; lra|apply Q.le_min_l].
    + rewrite Pmx, Hmx. lra.
Qed.

Lemma rateLimiter_tokens_bounded_witness :
  RateLimitRuns.times_from 0 [(0, "a"); (0, "a"); (1000, "b")] = true /\
  (let rl := snd (RateLimitRuns.consume_all [(0, "a"); (0, "a"); (1000, "b")] RateLimit.rateLimiter) in
   (forall ip b, JSMap.get ip (RateLimit.buckets rl) = Some b ->
      (0 <= RateLimit.tokens b <= 10)%Q /\
      (RateLimit.lastRefill b <= RateLimitRuns.last_time 0 [(0, "a"); (0, "a"); (1000, "b")])%Z) /\
   (forall ip t, (RateLimitRuns.last_time 0 [(0, "a"); (0, "a"); (1000, "b")] <= t)%Z ->
      (0 <= RateLimit.getRemainingTokens t ip rl <= 10)%Q)).
Proof.
  split; [reflexivity|]. apply rateLimiter_tokens_bounded. reflexivity.
Defined.

(** With a clock that never goes back, the route's limiter admits at most
    10 requests of one client plus one for each full 60000 ms elapsed:
    admitted * 60000 <= 600000 + (last clock reading - first). *)
Theorem rateLimiter_admission_rate (t0 : Z) (calls : list (Z * string)) (ip : string) :
  RateLimitRuns.times_from t0 calls = true ->
  (Z.of_nat (RateLimitRuns.admitted_for ip calls
               (fst (RateLimitRuns.consume_all calls RateLimit.rateLimiter))) * 60000
   <= 600000 + (RateLimitRuns.last_time t0 calls - t0))%Z.
Proof.
  intros Hmono.
  destruct RateLimitRunFacts.rateLimiter_params as [Hmx Hrate].
  pose proof (RateLimitRunFacts.consume_all_adm ip t0 calls RateLimit.rateLimiter t0 0)
    as Hinv.
  rewrite Hmx, Hrate in Hinv.
  specialize (Hinv ltac:(lra) ltac:(unfold Qle; simpl; lia) ltac:(lia) Hmono eq_refl).
  pose proof (RateLimitRunFacts.last_time_ge t0 calls Hmono) as HT.
  set (A := RateLimitRuns.admitted_for ip calls
              (fst (RateLimitRuns.consume_all calls RateLimit.rateLimiter))) in *.
  set (T := RateLimitRuns.last_time t0 calls) in *.
  unfold RateLimitRuns.adm_inv in Hinv. simpl Nat.add in Hinv.
  destruct (JSMap.get ip _) as [b|] in Hinv.
  - destruct Hinv as (H1 & H2 & H3).
    assert (HL : (inject_Z (RateLimit.lastRefill b - t0) <= inject_Z (T - t0))%Q)
      by (rewrite <- Zle_Qle; lia).
    rewrite Zle_Qle, inject_Z_mult, inject_Z_plus.
    change (inject_Z 60000) with (60000 # 1)%Q.
    change (inject_Z 600000) with (600000 # 1)%Q.
    lra.
  - rewrite Hinv. lia.
Qed.

Lemma rateLimiter_admission_rate_witness :
  RateLimitRuns.times_from 0 [(0, "a"); (30000, "a"); (60000, "b")] = true /\
  (Z.of_nat (RateLimitRuns.admitted_for "a" [(0, "a"); (30000, "a"); (60000, "b")]
               (fst (RateLimitRuns.consume_all [(0, "a"); (30000, "a"); (60000, "b")]
                       RateLimit.rateLimiter))) * 60000
   <= 600000 + (RateLimitRuns.last_time 0 [(0, "a"); (30000, "a"); (60000, "b")] - 0))%Z.
Proof.
  split; [reflexivity|]. apply rateLimiter_admission_rate. reflexivity.
Defined.

(** With a clock that never goes back, a client whose last request came at
    least 60000 ms ago, or who never made one, is admitted by the route's
    limiter whatever the earlier traffic was. *)
Theorem rateLimiter_admits_after_a_minute (t0 : Z) (calls : list (Z * string)) (ip : string) (t : Z) :
  RateLimitRuns.times_from t0 calls = true ->
  (forall tl, RateLimitRuns.last_call_for ip calls = Some tl -> (tl + 60000 <= t)%Z) ->
  fst (RateLimit.consume t ip (snd (RateLimitRuns.consume_all calls RateLimit.rateLimiter))) = true.
Proof.
  intros Hmono Hwait.
  set (rl := snd (RateLimitRuns.consume_all calls RateLimit.rateLimiter)).
  destruct RateLimitRunFacts.rateLimiter_params as [Hmx Hrate].
  destruct (RateLimitRunFacts.consume_all_params calls RateLimit.rateLimiter) as [Pmx Prate].
  fold rl in Pmx, Prate.
  destruct (RateLimitRunFacts.consume_spec t ip rl) as [-> _].
  apply Qle_bool_iff.
  destruct (RateLimitRunFacts.last_call_bucket ip calls RateLimit.rateLimiter) as [Hnone Hsome].
  fold rl in Hnone, Hsome.
  destruct (RateLimitRuns.last_call_for ip calls) as [tl|] eqn:L.
  - destruct (Hsome tl eq_refl) as (b & Hb & Hl).
    rewrite (RateLimitRunFacts.current_bucket_stored _ _ _ _ Hb).
    assert (Hok : RateLimitRuns.bucket_ok 10 (RateLimitRuns.last_time t0 calls) b).
    { rewrite <- Hmx.
      refine (RateLimitRunFacts.consume_all_ok calls RateLimit.rateLimiter t0 _ _ _ Hmono ip b Hb);
        [rewrite Hmx; lra|rewrite Hrate; unfold Qle; simpl; lia|].
      intros ip' b' Hb'. discriminate Hb'. }
    destruct Hok as (H1 & _ & _).
    specialize (Hwait tl eq_refl).
    assert (Hw : (inject_Z 60000 <= inject_Z (t - RateLimit.lastRefill b))%Q)
      by (rewrite <- Zle_Qle; lia).
    change (inject_Z 60000) with (60000 # 1)%Q in Hw.
    unfold RateLimit.refill. cbn [RateLimit.tokens]. rewrite Pmx, Prate, Hmx, Hrate.
    apply Q.min_glb; lra.
  - rewrite (RateLimitRunFacts.current_bucket_fresh _ _ _ (Hnone eq_refl)).
    unfold RateLimit.refill. cbn [RateLimit.tokens RateLimit.lastRefill].
    rewrite Pmx, Prate, Hmx, Z.sub_diag. unfold Qle; simpl; lia.
Qed.

Lemma rateLimiter_admits_after_a_minute_witness :
  RateLimitRuns.times_from 0 (List.repeat (0, "a") 12) = true /\
  (forall tl, RateLimitRuns.last_call_for "a" (List.repeat (0, "a") 12) = Some tl ->
     (tl + 60000 <= 60000)%Z) /\
  fst (RateLimit.consume 60000 "a"
         (snd (RateLimitRuns.consume_all (List.repeat (0, "a") 12) RateLimit.rateLimiter))) = true.
Proof.
  assert (Hw : forall tl, RateLimitRuns.last_call_for "a" (List.repeat (0, "a") 12) = Some tl ->
                 (tl + 60000 <= 60000)%Z).
  { intros tl Htl. vm_compute in Htl. injection Htl as <-. lia. }
  split; [reflexivity|]. split; [exact Hw|].
  apply (rateLimiter_admits_after_a_minute 0); [reflexivity|exact Hw].
Defined.

(* ------------------------------------------------------------------ *)
(** ** More on the response cache and the route *)

Module CacheRouteFacts.
Import LRU JSMapFacts AnswerSchema Orchestrator Route RouteRuns.

Lemma get_delete_other {A} k k' (m : JSMap.t A) :
  String.eqb k k' = false -> JSMap.get k' (JSMap.delete k m) = JSMap.get k' m.
Proof.
  intros H. induction m as [|[k1 x] m IH]; [reflexivity|].
  rewrite delete_cons. destruct (String.eqb k1 k) eqn:E.
  - apply String.eqb_eq in E. subst k1. simpl. rewrite H. exact IH.
  - simpl. rewrite IH. reflexivity.
Qed.

Lemma ttl_get {V} t k (c : LRUCache V) : ttl (snd (get t k c)) = ttl c.
Proof. unfold get. destruct (JSMap.get k (cache c)); [destruct (Z.gtb _ _)|]; reflexivity. Qed.

Lemma get_after_set {V} t t' k (v : V) c :
  fst (get t' k (set t k v c)) = if Z.gtb (t' - t) (ttl c) then None else Some v.
Proof.
  unfold get, set, with_map. cbn [cache ttl]. rewrite get_set_same. cbn [timestamp value].
  destruct (Z.gtb _ _); reflexivity.
Qed.

Lemma set_other_exact {V} t k k' (v : V) c :
  String.eqb k k' = false ->
  JSMap.get k' (cache (set t k v c)) =
  if Z.geb (Z.of_nat (JSMap.size (JSMap.delete k (cache c)))) (capacity c)
     && match JSMap.first_key (JSMap.delete k (cache c)) with
        | Some f => String.eqb f k'
        | None => false
        end
  then None else JSMap.get k' (cache c).
Proof.
  intros Hne. unfold set, with_map. cbn [cache].
  rewrite RateLimitRunFacts.get_set, Hne.
  assert (H1 : JSMap.get k' (JSMap.delete k (cache c)) = JSMap.get k' (cache c))
    by (apply get_delete_other; exact Hne).
  destruct (Z.geb _ _); cbn [andb]; [|exact H1].
  destruct (JSMap.first_key (JSMap.delete k (cache c))) as [fk|]; [|exact H1].
  destruct (String.eqb fk k') eqn:E.
  - apply String.eqb_eq in E. subst fk. apply get_delete_same.
  - rewrite get_delete_other by exact E. exact H1.
Qed.

Lemma Forall_delete {A} (P : string * A -> Prop) k (m : JSMap.t A) :
  Forall P m -> Forall P (JSMap.delete k m).
Proof.
  intros H. induction H as [|p m Hp Hm IH]; [constructor|].
  destruct p as [k1 x]. rewrite delete_cons. destruct (String.eqb k1 k); [exact IH|].
  constructor; assumption.
Qed.

Lemma Forall_set {A} (P : string * A -> Prop) k v (m : JSMap.t A) :
  Forall P m -> P (k, v) -> Forall P (JSMap.set k v m).
Proof.
  intros H Hkv. unfold JSMap.set. destruct (JSMap.has k m).
  - apply Forall_map. eapply Forall_impl; [|exact H].
    intros p Hp. destruct (String.eqb (fst p) k); assumption.
  - apply Forall_app. split; [exact H|]. constructor; [exact Hkv|constructor].
Qed.

Lemma get_In_pair {A} k (m : JSMap.t A) v : JSMap.get k m = Some v -> In (k, v) m.
Proof.
  induction m as [|[k1 x] m IH]; simpl; [discriminate|].
  destruct (String.eqb k1 k) eqn:E; intros H.
  - apply String.eqb_eq in E. subst k1. injection H as <-. left. reflexivity.
  - right. apply IH, H.
Qed.

Lemma cache_valid_get t k c :
  cache_valid c ->
  cache_valid (snd (get t k c)) /\ (forall a, fst (get t k c) = Some a -> answer_ok a = true).
Proof.
  unfold cache_valid. intros Hv. unfold get.
  destruct (JSMap.get k (cache c)) as [it|] eqn:Hg; [|split; [exact Hv|discriminate]].
  assert (Hit : answer_ok (value it) = true).
  { rewrite Forall_forall in Hv. apply (Hv (k, it)). apply get_In_pair, Hg. }
  destruct (Z.gtb _ _); unfold with_map; cbn [cache fst snd].
  - split; [apply Forall_delete, Hv|discriminate].
  - split.
    + apply Forall_set; [apply Forall_delete, Hv|exact Hit].
    + intros a Ha. injection Ha as <-. exact Hit.
Qed.

Lemma cache_valid_set t k a c :
  cache_valid c -> answer_ok a = true -> cache_valid (set t k a c).
Proof.
  unfold cache_valid, set, with_map. cbn [cache]. intros Hv Ha.
  apply Forall_set; [|exact Ha].
  destruct (Z.geb _ _); [destruct (JSMap.first_key _)|];
    repeat apply Forall_delete; exact Hv.
Qed.

Lemma safeParse_valid a d :
  safeParseAnswer a = Some d ->
  answer_ok d = true /\ prereqs d <> None /\ decision_tree d <> None /\
  diagrams d <> None /\ warnings d <> None.
Proof.
  unfold safeParseAnswer. destruct (answer_ok a) eqn:E; [|discriminate].
  intros H. injection H as <-.
  repeat split; try discriminate. exact E.
Qed.

Lemma answerIssue_valid env i o d a :
  answerIssue env i o d = Ok a ->
  answer_ok a = true /\ prereqs a <> None /\ decision_tree a <> None /\
  diagrams a <> None /\ warnings a <> None.
Proof.
  unfold answerIssue. destruct (String.eqb (openai_api_key env) EmptyString); [discriminate|].
  destruct (answerIssue_body env i o d) as [a'|e] eqn:B; [|discriminate].
  intros H. injection H as <-.
  unfold answerIssue_body in B.
  destruct (fst (tool_loop _ _ _ _)) as [out|e]; [|discriminate].
  destruct (String.eqb (finalResponse out) EmptyString); [discriminate|].
  destruct (extract_answer env (finalResponse out)) as [p|]; [|discriminate].
  destruct (validate_stage p) as [v|e]; [|discriminate].
  destruct (citation_repair env v) as [r|e]; [|discriminate].
  unfold validateAnswer in B. destruct (safeParseAnswer r) as [x|] eqn:S; [|discriminate].
  injection B as <-. apply (safeParse_valid r), S.
Qed.

Lemma POST_valid env clk srv req :
  cache_valid (cache_state srv) ->
  cache_valid (cache_state (snd (POST env clk srv req))) /\
  (forall a, body (fst (fst (POST env clk srv req))) = AnswerJson a -> answer_ok a = true).
Proof.
  intros Hv. unfold POST.
  destruct (RateLimit.consume _ _ _) as [allowed rl1].
  destruct allowed; cbn [negb]; [|split; [exact Hv|discriminate]].
  destruct (json_body req) as [b|]; [|split; [exact Hv|discriminate]].
  destruct (parse_request b) as [[[i o] d]|]; [|split; [exact Hv|discriminate]].
  pose proof (cache_valid_get (t_now clk) (cache_key i o d) (cache_state srv) Hv) as [Hc1 Hr].
  destruct (get (t_now clk) (cache_key i o d) (cache_state srv)) as [cr c1].
  cbn [fst snd] in Hc1, Hr.
  destruct cr as [a|].
  - split; [exact Hc1|]. intros a' Ha'. injection Ha' as <-. apply Hr. reflexivity.
  - destruct (answerIssue env i o d) as [a|e] eqn:A.
    + destruct (answerIssue_valid env i o d a A) as [Ha _].
      split; [apply cache_valid_set; assumption|].
      intros a' Ha'. injection Ha' as <-. exact Ha.
    + split; [exact Hc1|discriminate].
Qed.

Lemma POST_miss env clk srv req :
  x_cache (fst (fst (POST env clk srv req))) = Some "MISS" ->
  exists b i o d a,
    json_body req = Some b /\ parse_request b = Some (i, o, d) /\
    body (fst (fst (POST env clk srv req))) = AnswerJson a /\
    cache_state (snd (POST env clk srv req)) =
      set (t_now clk) (cache_key i o d) a (snd (get (t_now clk) (cache_key i o d) (cache_state srv))).
Proof.
  unfold POST.
  destruct (RateLimit.consume _ _ _) as [allowed rl1].
  destruct allowed; cbn [negb]; [|discriminate].
  destruct (json_body req) as [b|]; [|discriminate].
  destruct (parse_request b) as [[[i o] d]|] eqn:P; [|discriminate].
  destruct (get (t_now clk) (cache_key i o d) (cache_state srv)) as [cr c1] eqn:G.
  destruct cr as [a|]; [discriminate|].
  destruct (answerIssue env i o d) as [a|e]; [|discriminate].
  intros _. exists b, i, o, d, a. repeat split; [exact P|]. rewrite G. reflexivity.
Qed.

End CacheRouteFacts.

(** A value stored with [set] at time [t] is returned by [get] at time
    [t'] exactly while [t' - t] does not exceed the TTL, whatever the
    capacity and the other entries. *)
Theorem lru_get_after_set {V : Type} (t t' : Z) (k : string) (v : V) (c : LRU.LRUCache V) :
  fst (LRU.get t' k (LRU.set t k v c)) =
  if Z.gtb (t' - t) (LRU.ttl c) then None else Some v.
Proof. apply CacheRouteFacts.get_after_set. Qed.

(** [set] of a key [k] leaves the entry of every other key [k'] as it
    was, unless the cache, after removing [k], holds [capacity] entries or
    more and [k'] is its first (least recently used) key: then, and only
    then, [k'] is evicted. *)
Theorem lru_set_evicts_oldest_only_when_full {V : Type} (t : Z) (k k' : string) (v : V)
  (c : LRU.LRUCache V) :
  String.eqb k k' = false ->
  JSMap.get k' (LRU.cache (LRU.set t k v c)) =
  if Z.geb (Z.of_nat (JSMap.size (JSMap.delete k (LRU.cache c)))) (LRU.capacity c)
     && match JSMap.first_key (JSMap.delete k (LRU.cache c)) with
        | Some f => String.eqb f k'
        | None => false
        end
  then None else JSMap.get k' (LRU.cache c).
Proof. apply CacheRouteFacts.set_other_exact. Qed.

Lemma lru_set_evicts_oldest_only_when_full_witness :
  let c := LRU.mkCache 2 [("a", LRU.mkItem 1%Z 0); ("b", LRU.mkItem 2%Z 1)] 100 in
  String.eqb "c" "a" = false /\ String.eqb "c" "b" = false /\
  JSMap.get "a" (LRU.cache (LRU.set 5 "c" 3%Z c)) = None /\
  JSMap.get "b" (LRU.cache (LRU.set 5 "c" 3%Z c)) = Some (LRU.mkItem 2%Z 1).
Proof.
  intros c. split; [reflexivity|]. split; [reflexivity|]. split.
  - rewrite (lru_set_evicts_oldest_only_when_full 5 "c" "a" 3%Z c eq_refl). reflexivity.
  - rewrite (lru_set_evicts_oldest_only_when_full 5 "c" "b" 3%Z c eq_refl). reflexivity.
Defined.

(** From the module's initial state, whatever requests arrive and however
    the model behaves on each, every answer [POST] sends (fresh or from
    the cache) passes the answer schema. *)
Theorem POST_run_answers_valid (calls : list (Orchestrator.Env * Route.Clock * Route.Request)) :
  forall resp a, In resp (fst (RouteRuns.POST_run calls Route.initial_server)) ->
    Route.body resp = Route.AnswerJson a -> AnswerSchema.answer_ok a = true.
Proof.
  assert (Hgen : forall srv, RouteRuns.cache_valid (Route.cache_state srv) ->
    RouteRuns.cache_valid (Route.cache_state (snd (RouteRuns.POST_run calls srv))) /\
    forall resp a, In resp (fst (RouteRuns.POST_run calls srv)) ->
      Route.body resp = Route.AnswerJson a -> AnswerSchema.answer_ok a = true).
  { induction calls as [|[[env clk] req] calls IH]; intros srv Hv.
    - split; [exact Hv|]. intros resp a [].
    - cbn [RouteRuns.POST_run].
      pose proof (CacheRouteFacts.POST_valid env clk srv req Hv) as [Hv1 Hr].
      destruct (Route.POST env clk srv req) as [[resp evs] srv1].
      cbn [fst snd] in Hv1, Hr.
      destruct (IH srv1 Hv1) as [Hv2 Hrs].
      destruct (RouteRuns.POST_run calls srv1) as [resps srv2].
      cbn [fst snd] in Hv2, Hrs |- *.
      split; [exact Hv2|]. intros resp' a [<-|Hin]; [apply Hr|apply Hrs, Hin]. }
  apply Hgen. constructor.
Qed.

Lemma POST_run_answers_valid_witness :
  let calls := [(Examples.env_repair Orchestrator.NoChoice None, Route.mkClock 1000 1000, Route.sample_request);
                (Examples.env_tools_forever, Route.mkClock 2000 2000, Route.sample_request)] in
  let resp := nth 1 (fst (RouteRuns.POST_run calls Route.initial_server)) Route.internal_error in
  In resp (fst (RouteRuns.POST_run calls Route.initial_server)) /\
  Route.body resp = Route.AnswerJson Examples.ans0 /\
  Route.x_cache resp = Some "HIT" /\
  AnswerSchema.answer_ok Examples.ans0 = true.
Proof.
  intros calls resp.
  assert (Hin : In resp (fst (RouteRuns.POST_run calls Route.initial_server)))
    by (vm_compute; right; left; reflexivity).
  assert (Hb : Route.body resp = Route.AnswerJson Examples.ans0) by (vm_compute; reflexivity).
  split; [exact Hin|]. split; [exact Hb|]. split; [vm_compute; reflexivity|].
  exact (POST_run_answers_valid calls resp Examples.ans0 Hin Hb).
Defined.

(** Once [POST] has answered a request with a fresh answer ([X-Cache:
    MISS]), a later request with the same body that the rate limiter
    admits within the cache TTL is answered from the cache: the same
    answer with [X-Cache: HIT], and the orchestrator is not called. *)
Theorem POST_repeat_served_from_cache (env env' : Orchestrator.Env) (clk clk' : Route.Clock)
  (srv : Route.Server) (req req' : Route.Request) (a : AnswerSchema.Answer) :
  Route.body (fst (fst (Route.POST env clk srv req))) = Route.AnswerJson a ->
  Route.x_cache (fst (fst (Route.POST env clk srv req))) = Some "MISS" ->
  Route.json_body req' = Route.json_body req ->
  fst (RateLimit.consume (Route.t_consume clk')
         (Route.client_ip (Route.x_forwarded_for req') (Route.x_real_ip req'))
         (Route.rateLimiter_state (snd (Route.POST env clk srv req)))) = true ->
  (Route.t_now clk' - Route.t_now clk <= LRU.ttl (Route.cache_state srv))%Z ->
  fst (fst (Route.POST env' clk' (snd (Route.POST env clk srv req)) req')) =
    Route.mkResponse 200 (Route.AnswerJson a) None None (Some "HIT") /\
  (forall i o d, ~ In (Route.Orchestrate i o d)
                     (snd (fst (Route.POST env' clk' (snd (Route.POST env clk srv req)) req')))).
Proof.
  intros HB HM Hj Hc Ht.
  destruct (CacheRouteFacts.POST_miss env clk srv req HM) as (b & i & o & d & a' & Hb & Hp & Hbody & Hcache).
  rewrite Hbody in HB. injection HB as ->.
  remember (snd (Route.POST env clk srv req)) as srv' eqn:Hsrv.
  clear HM Hbody Hsrv.
  unfold Route.POST.
  destruct (RateLimit.consume _ _ (Route.rateLimiter_state srv')) as [allowed rl1].
  cbn [fst] in Hc. subst allowed. cbn [negb].
  rewrite Hj, Hb, Hp, Hcache.
  pose proof (CacheRouteFacts.get_after_set (Route.t_now clk) (Route.t_now clk') (Route.cache_key i o d) a
    (snd (LRU.get (Route.t_now clk) (Route.cache_key i o d) (Route.cache_state srv)))) as Hg.
  rewrite CacheRouteFacts.ttl_get in Hg.
  replace (Z.gtb (Route.t_now clk' - Route.t_now clk) (LRU.ttl (Route.cache_state srv))) with false in Hg
    by (symmetry; rewrite Z.gtb_ltb; apply Z.ltb_ge; exact Ht).
  destruct (LRU.get (Route.t_now clk') (Route.cache_key i o d) _) as [cr c2].
  cbn [fst] in Hg. subst cr.
  split; [reflexivity|]. intros i' o' d' [H|[H|[H|[]]]]; discriminate H.
Qed.

Lemma POST_repeat_served_from_cache_witness :
  let env := Examples.env_repair Orchestrator.NoChoice None in
  let clk := Route.mkClock 1000 1000 in
  let clk' := Route.mkClock 2000 2000 in
  let r1 := Route.POST env clk Route.initial_server Route.sample_request in
  Route.body (fst (fst r1)) = Route.AnswerJson Examples.ans0 /\
  Route.x_cache (fst (fst r1)) = Some "MISS" /\
  fst (fst (Route.POST Examples.env_tools_forever clk' (snd r1) Route.sample_request)) =
    Route.mkResponse 200 (Route.AnswerJson Examples.ans0) None None (Some "HIT").
Proof.
  intros env clk clk' r1.
  assert (HB : Route.body (fst (fst r1)) = Route.AnswerJson Examples.ans0) by (vm_compute; reflexivity).
  assert (HM : Route.x_cache (fst (fst r1)) = Some "MISS") by (vm_compute; reflexivity).
  split; [exact HB|]. split; [exact HM|].
  apply (POST_repeat_served_from_cache env Examples.env_tools_forever clk clk'
           Route.initial_server Route.sample_request Route.sample_request Examples.ans0 HB HM eq_refl).
  - vm_compute. reflexivity.
  - vm_compute. discriminate.
Defined.

(** An admitted request whose body is not JSON or does not match the
    request schema is answered 500 or 400 without a cache lookup or an
    orchestrator call, but its token is spent: the limiter keeps the
    state of the consume and the cache is left unchanged. *)
Theorem POST_bad_body_spends_token (env : Orchestrator.Env) (clk : Route.Clock)
  (srv : Route.Server) (req : Route.Request) :
  let ip := Route.client_ip (Route.x_forwarded_for req) (Route.x_real_ip req) in
  fst (RateLimit.consume (Route.t_consume clk) ip (Route.rateLimiter_state srv)) = true ->
  (Route.json_body req = None \/
   exists b, Route.json_body req = Some b /\ Route.parse_request b = None) ->
  (Route.status (fst (fst (Route.POST env clk srv req))) = 400 \/
   Route.status (fst (fst (Route.POST env clk srv req))) = 500) /\
  snd (fst (Route.POST env clk srv req)) = [Route.ConsumeToken ip; Route.ParseBody; Route.ParseBody] /\
  snd (Route.POST env clk srv req) =
    Route.mkServer (snd (RateLimit.consume (Route.t_consume clk) ip (Route.rateLimiter_state srv)))
      (Route.cache_state srv).
Proof.
  intros ip Hc Hbad. unfold Route.POST. fold ip.
  destruct (RateLimit.consume (Route.t_consume clk) ip (Route.rateLimiter_state srv)) as [allowed rl1].
  cbn [fst] in Hc. subst allowed. cbn [negb snd].
  destruct Hbad as [-> | (b & -> & Hp)].
  - repeat split. right. reflexivity.
  - rewrite Hp. repeat split. left. reflexivity.
Qed.

Lemma POST_bad_body_spends_token_witness :
  let req := Route.mkRequest None (Some "198.51.100.7")
               (Some (Route.mkRequestBody (Some "Printer jams") (Some "Amiga") (Some "Printer"))) in
  let ip := Route.client_ip (Route.x_forwarded_for req) (Route.x_real_ip req) in
  fst (RateLimit.consume 0 ip (Route.rateLimiter_state Route.initial_server)) = true /\
  ((Route.status (fst (fst (Route.POST Examples.env_tools_forever (Route.mkClock 0 0) Route.initial_server req))) = 400 \/
    Route.status (fst (fst (Route.POST Examples.env_tools_forever (Route.mkClock 0 0) Route.initial_server req))) = 500) /\
   snd (fst (Route.POST Examples.env_tools_forever (Route.mkClock 0 0) Route.initial_server req)) =
     [Route.ConsumeToken ip; Route.ParseBody; Route.ParseBody] /\
   snd (Route.POST Examples.env_tools_forever (Route.mkClock 0 0) Route.initial_server req) =
     Route.mkServer (snd (RateLimit.consume 0 ip (Route.rateLimiter_state Route.initial_server)))
       (Route.cache_state Route.initial_server)).
Proof.
  intros req ip.
  assert (Hc : fst (RateLimit.consume 0 ip (Route.rateLimiter_state Route.initial_server)) = true)
    by (vm_compute; reflexivity).
  split; [exact Hc|].
  apply (POST_bad_body_spends_token Examples.env_tools_forever (Route.mkClock 0 0) Route.initial_server req Hc).
  right. exists (Route.mkRequestBody (Some "Printer jams") (Some "Amiga") (Some "Printer")).
  split; [reflexivity|]. vm_compute. reflexivity.
Defined.

(** A request the limiter denies, at a non-negative clock reading [now],
    gets status 429 with a [retryAfter] of 1 to 600 seconds (the time left
    in the current 10-minute window, rounded up) and an [X-RateLimit-Reset]
    of [now + 600000]. *)
Theorem POST_denied_retry_after (env : Orchestrator.Env) (clk : Route.Clock)
  (srv : Route.Server) (req : Route.Request) :
  let ip := Route.client_ip (Route.x_forwarded_for req) (Route.x_real_ip req) in
  fst (RateLimit.consume (Route.t_consume clk) ip (Route.rateLimiter_state srv)) = false ->
  (0 <= Route.t_now clk)%Z ->
  exists err ra,
    Route.status (fst (fst (Route.POST env clk srv req))) = 429 /\
    Route.body (fst (fst (Route.POST env clk srv req))) = Route.RateLimited err ra /\
    (1 <= ra <= 600)%Z /\
    (ra * 1000 >= 600000 - Z.rem (Route.t_now clk) 600000)%Z /\
    ((ra - 1) * 1000 < 600000 - Z.rem (Route.t_now clk) 600000)%Z /\
    Route.x_ratelimit_reset (fst (fst (Route.POST env clk srv req))) = Some (Route.t_now clk + 600000)%Z.
Proof.
  intros ip Hc Hn. unfold Route.POST. fold ip.
  destruct (RateLimit.consume (Route.t_consume clk) ip (Route.rateLimiter_state srv)) as [allowed rl1].
  cbn [fst] in Hc. subst allowed. cbn [negb fst].
  exists "Rate limit exceeded. Please try again later."%string, (Route.retry_after (Route.t_now clk)).
  pose proof (RouteFacts.retry_after_bounds (Route.t_now clk) Hn) as Hb.
  unfold Route.retry_after, Route.rateLimitWindow in *.
  pose proof (Z.rem_bound_pos (Route.t_now clk) (10 * 60 * 1000) Hn ltac:(lia)) as Hr.
  set (x := (10 * 60 * 1000 - Z.rem (Route.t_now clk) (10 * 60 * 1000))%Z) in *.
  pose proof (Z.div_mod (- x) 1000 ltac:(lia)) as Hd.
  pose proof (Z.mod_pos_bound (- x) 1000 ltac:(lia)) as Hm.
  change (10 * 60 * 1000)%Z with 600000%Z in *.
  repeat split; try reflexivity; lia.
Qed.

Lemma POST_denied_retry_after_witness :
  let ip := Route.client_ip (Route.x_forwarded_for Route.sample_request) (Route.x_real_ip Route.sample_request) in
  fst (RateLimit.consume 2000 ip (Route.rateLimiter_state Route.drained_server)) = false /\
  exists err ra,
    Route.status (fst (fst (Route.POST Examples.env_tools_forever (Route.mkClock 2000 2000) Route.drained_server Route.sample_request))) = 429 /\
    Route.body (fst (fst (Route.POST Examples.env_tools_forever (Route.mkClock 2000 2000) Route.drained_server Route.sample_request))) = Route.RateLimited err ra /\
    (1 <= ra <= 600)%Z /\
    (ra * 1000 >= 600000 - Z.rem 2000 600000)%Z /\
    ((ra - 1) * 1000 < 600000 - Z.rem 2000 600000)%Z /\
    Route.x_ratelimit_reset (fst (fst (Route.POST Examples.env_tools_forever (Route.mkClock 2000 2000) Route.drained_server Route.sample_request))) = Some (2000 + 600000)%Z.
Proof.
  intros ip.
  assert (Hc : fst (RateLimit.consume 2000 ip (Route.rateLimiter_state Route.drained_server)) = false)
    by (vm_compute; reflexivity).
  split; [exact Hc|].
  exact (POST_denied_retry_after Examples.env_tools_forever (Route.mkClock 2000 2000)
           Route.drained_server Route.sample_request Hc ltac:(cbn; lia)).
Defined.

(* ------------------------------------------------------------------ *)
(** ** More on the tools *)

Module ToolsFacts.
Import JSString Tools.

Lemma rtrim_snoc x c :
  is_ws c = false -> rtrim (x ++ String c EmptyString) = (x ++ String c EmptyString)%string.
Proof.
  intros H. induction x as [|d x IH]; simpl; [rewrite H; reflexivity|].
  rewrite IH. destruct (x ++ String c EmptyString)%string eqn:E; [|reflexivity].
  destruct x; discriminate.
Qed.

Lemma trim_delimited c x d :
  is_ws c = false -> is_ws d = false ->
  trim (String c (x ++ String d EmptyString)) = String c (x ++ String d EmptyString).
Proof.
  intros Hc Hd. unfold trim. rewrite StringFacts.ltrim_cons_nonws by exact Hc.
  change (String c (x ++ String d EmptyString)) with (String c x ++ String d EmptyString)%string.
  apply rtrim_snoc, Hd.
Qed.

Lemma svg_head_lt n : exists r, svg_head n = String "<" r.
Proof. eexists. reflexivity. Qed.

Lemma svg_head_prefix n : exists r, svg_head n = ("<svg" ++ r)%string.
Proof. eexists. reflexivity. Qed.

Lemma trim_svg_markup n B :
  trim (svg_head n ++ B ++ "</svg>") = (svg_head n ++ B ++ "</svg>")%string.
Proof.
  destruct (svg_head_lt n) as [r Hr]. rewrite Hr.
  replace (String "<" r ++ B ++ "</svg>")%string
    with (String "<" ((r ++ B ++ "</svg") ++ String ">" EmptyString))
    by (cbn [append]; rewrite !StringFacts.append_assoc; reflexivity).
  apply trim_delimited; reflexivity.
Qed.

(** The markup is already trimmed. *)
Lemma make_svg_raw spec :
  svg (make_svg_diagram spec) =
  (svg_head (length (diagram_parts spec)) ++ boxes_svg (length (diagram_parts spec)) 0 (diagram_parts spec)
   ++ "</svg>")%string.
Proof. unfold make_svg_diagram. cbn [svg]. apply trim_svg_markup. Qed.

Lemma leading_ws_lt r : leading_ws (String "<" r) = 0%nat.
Proof. reflexivity. Qed.

Lemma slice0_length {A} k (l : list A) : 0 <= k -> (length (slice0 k l) <= Z.to_nat k)%nat.
Proof.
  intros Hk. unfold slice0. destruct (Z.ltb_spec k 0); [lia|]. apply firstn_le_length.
Qed.

Lemma firstn_In_tail {A} n (l : list A) x : In x (firstn n l) -> In x l.
Proof.
  intros H. rewrite <- (firstn_skipn n l). apply in_or_app. left. exact H.
Qed.

Lemma In_slice0 {A} k (l : list A) x : In x (slice0 k l) -> In x l.
Proof.
  unfold slice0. intros H. eapply firstn_In_tail; exact H.
Qed.

Lemma filter_all {A} (f : A -> bool) l : (forall x, f x = true) -> List.filter f l = l.
Proof.
  intros H. induction l as [|x l IH]; simpl; [reflexivity|]. rewrite H, IH. reflexivity.
Qed.

End ToolsFacts.

(** For a [topK] of 0 or more (the default is 5), [search_web] never
    returns more than [topK] results, whichever path it takes: mock results
    without an API key, the API's filtered results, the fallbacks on an
    HTTP error or a throw.  (A negative [topK] makes [slice(0, topK)] count
    from the end; that case is outside this statement.) *)
Theorem search_web_at_most_topK (env : Tools.SearchEnv) (query : string) (topK : option Z) :
  (0 <= match topK with Some k => k | None => 5 end)%Z ->
  (length (Tools.search_web env query topK) <= Z.to_nat (match topK with Some k => k | None => 5 end))%nat.
Proof.
  intros Hk. unfold Tools.search_web.
  set (k := match topK with Some k => k | None => 5%Z end) in *.
  destruct (String.eqb (Tools.brave_key env) EmptyString); [apply ToolsFacts.slice0_length, Hk|].
  destruct (Tools.brave_search env _ _) as [|status|[rs|]];
    try (apply ToolsFacts.slice0_length, Hk).
  simpl. lia.
Qed.

Lemma search_web_at_most_topK_witness :
  (0 <= 2)%Z /\
  (length (Tools.search_web (Tools.mkSearchEnv EmptyString (fun _ _ => Tools.SearchThrows))
             "Wi-Fi drops" (Some 2%Z)) <= Z.to_nat 2)%nat.
Proof. split; [lia|]. apply (search_web_at_most_topK _ _ (Some 2%Z)). lia. Defined.

(** With an API key and a search response that has [web.results], every
    result [search_web] returns is one of those results, with its URL and
    title kept and [description] as snippet, and its URL is not one that
    [shouldFilterUrl] rejects for the query. *)
Theorem search_web_results_pass_filter (env : Tools.SearchEnv) (query : string) (topK : option Z)
  (rs : list Tools.BraveResult) :
  String.eqb (Tools.brave_key env) EmptyString = false ->
  Tools.brave_search env (Tools.replace_ws " " (JSString.trim query))
    (Z.min (match topK with Some k => k | None => 5 end * 2) 50) = Tools.SearchJson (Some rs) ->
  forall r, In r (Tools.search_web env query topK) ->
    exists b, In b rs /\
      r = Tools.mkSearchResult (Tools.br_title b) (Tools.br_url b) (Tools.br_description b) /\
      Tools.shouldFilterUrl (Tools.br_url b) query = false.
Proof.
  intros Hkey Hs r Hr. unfold Tools.search_web in Hr. rewrite Hkey, Hs in Hr.
  apply ToolsFacts.In_slice0 in Hr. apply in_map_iff in Hr as (b & <- & Hb).
  apply filter_In in Hb as [Hb Hf]. exists b. split; [exact Hb|]. split; [reflexivity|].
  destruct (Tools.shouldFilterUrl (Tools.br_url b) query); [discriminate|reflexivity].
Qed.

Lemma search_web_results_pass_filter_witness :
  let rs := [Tools.mkBraveResult "Admin" "https://x.example.com/admin" "Sign in";
             Tools.mkBraveResult "Fix Wi-Fi" "https://support.example.com/wifi" "Steps"] in
  let env := Tools.mkSearchEnv "key" (fun _ _ => Tools.SearchJson (Some rs)) in
  String.eqb (Tools.brave_key env) EmptyString = false /\
  forall r, In r (Tools.search_web env "wifi drops" None) ->
    exists b, In b rs /\
      r = Tools.mkSearchResult (Tools.br_title b) (Tools.br_url b) (Tools.br_description b) /\
      Tools.shouldFilterUrl (Tools.br_url b) "wifi drops" = false.
Proof.
  intros rs env. split; [reflexivity|].
  apply search_web_results_pass_filter; reflexivity.
Defined.

(** When the lower-cased query contains one of the explicit-request words
    ([pdf], [document], [login], [admin], [dashboard], [government],
    [education], [official]), nothing is filtered: with an API key,
    [search_web] returns the first [topK] API results in their order. *)
Theorem search_web_explicit_request_unfiltered (env : Tools.SearchEnv) (query : string)
  (topK : option Z) (rs : list Tools.BraveResult) (term : string) :
  In term Tools.explicitRequests ->
  Tools.includes term (JSString.toLowerCase query) = true ->
  String.eqb (Tools.brave_key env) EmptyString = false ->
  Tools.brave_search env (Tools.replace_ws " " (JSString.trim query))
    (Z.min (match topK with Some k => k | None => 5 end * 2) 50) = Tools.SearchJson (Some rs) ->
  Tools.search_web env query topK =
    Tools.slice0 (match topK with Some k => k | None => 5 end)
      (List.map (fun b => Tools.mkSearchResult (Tools.br_title b) (Tools.br_url b) (Tools.br_description b)) rs).
Proof.
  intros Hterm Hinc Hkey Hs. unfold Tools.search_web. rewrite Hkey, Hs.
  rewrite ToolsFacts.filter_all; [reflexivity|].
  intros b. unfold Tools.shouldFilterUrl.
  replace (existsb (fun t => Tools.includes t (JSString.toLowerCase query)) Tools.explicitRequests)
    with true; [reflexivity|].
  symmetry. apply existsb_exists. exists term. split; assumption.
Qed.

Lemma search_web_explicit_request_unfiltered_witness :
  let rs := [Tools.mkBraveResult "Manual" "https://x.example.com/manual.pdf" "PDF";
             Tools.mkBraveResult "Admin" "https://x.example.com/admin" "Console"] in
  let env := Tools.mkSearchEnv "key" (fun _ _ => Tools.SearchJson (Some rs)) in
  In "pdf" Tools.explicitRequests /\
  Tools.includes "pdf" (JSString.toLowerCase "Router PDF manual") = true /\
  Tools.search_web env "Router PDF manual" None =
    Tools.slice0 5
      (List.map (fun b => Tools.mkSearchResult (Tools.br_title b) (Tools.br_url b) (Tools.br_description b)) rs).
Proof.
  intros rs env. split; [simpl; tauto|]. split; [reflexivity|].
  apply (search_web_explicit_request_unfiltered env "Router PDF manual" None rs "pdf");
    [simpl; tauto|reflexivity|reflexivity|reflexivity].
Defined.

(** Every SVG that [make_svg_diagram] produces passes the answer schema's
    diagram check given a non-empty caption, also after [clampAnswer] cuts
    it to 10000 characters: it starts with [<svg] and ends with [</svg>]. *)
Theorem make_svg_diagram_passes_schema (spec caption : string) :
  (exists body, Tools.svg (Tools.make_svg_diagram spec) = ("<svg" ++ body ++ "</svg>")%string) /\
  AnswerSchema.diagram_ok (AnswerSchema.mkDiagram caption (Tools.svg (Tools.make_svg_diagram spec)))
    = AnswerSchema.nonempty caption /\
  AnswerSchema.diagram_ok
    (AnswerSchema.clampDiagram (AnswerSchema.mkDiagram caption (Tools.svg (Tools.make_svg_diagram spec))))
    = AnswerSchema.nonempty caption.
Proof.
  set (S := Tools.svg (Tools.make_svg_diagram spec)).
  assert (HS : S = (Tools.svg_head (length (Tools.diagram_parts spec))
                    ++ Tools.boxes_svg (length (Tools.diagram_parts spec)) 0 (Tools.diagram_parts spec)
                    ++ "</svg>")%string) by apply ToolsFacts.make_svg_raw.
  assert (Htrim : JSString.trim S = S) by (rewrite HS; apply ToolsFacts.trim_svg_markup).
  assert (Hstart : JSString.startsWith "<svg" S = true).
  { rewrite HS. destruct (ToolsFacts.svg_head_prefix (length (Tools.diagram_parts spec))) as [r Hr].
    rewrite Hr, StringFacts.append_assoc. apply StringFacts.prefix_app. }
  assert (Hlt : exists r, S = String "<" r).
  { rewrite HS. destruct (ToolsFacts.svg_head_lt (length (Tools.diagram_parts spec))) as [r Hr].
    rewrite Hr. eexists. reflexivity. }
  destruct Hlt as [r Hr].
  assert (Hne : AnswerSchema.nonempty S = true) by (rewrite Hr; reflexivity).
  split; [|split].
  - destruct (ToolsFacts.svg_head_prefix (length (Tools.diagram_parts spec))) as [h Hh].
    exists (h ++ Tools.boxes_svg (length (Tools.diagram_parts spec)) 0 (Tools.diagram_parts spec))%string.
    fold S. rewrite HS, Hh, !StringFacts.append_assoc. reflexivity.
  - unfold AnswerSchema.diagram_ok. cbn [AnswerSchema.caption AnswerSchema.svg].
    rewrite Hne, Htrim, Hstart. destruct (AnswerSchema.nonempty caption); reflexivity.
  - unfold AnswerSchema.diagram_ok, AnswerSchema.clampDiagram.
    cbn [AnswerSchema.caption AnswerSchema.svg].
    rewrite !StringFacts.nonempty_prefix_upto by (apply Nat.leb_le; reflexivity).
    rewrite Hne.
    rewrite StringFacts.svg_survives_cut;
      [destruct (AnswerSchema.nonempty caption); reflexivity
      |rewrite Htrim; exact Hstart
      |rewrite Hr, ToolsFacts.leading_ws_lt; apply Nat.leb_le; reflexivity].
Qed.

(* ------------------------------------------------------------------ *)
(** ** The client address *)

Module ClientIPFacts.
Import JSString AnswerSchema Orchestrator RateLimit Route.

Lemma split_without_sep c s :
  (forall x, In x (list_ascii_of_string s) -> x <> c) -> split c s = [s].
Proof.
  induction s as [|d s IH]; intros H; [reflexivity|].
  cbn [split]. destruct (Ascii.eqb d c) eqn:E.
  - apply Ascii.eqb_eq in E. exfalso. apply (H d); [left; reflexivity|exact E].
  - rewrite IH by (intros x Hx; apply H; right; exact Hx). reflexivity.
Qed.

Lemma client_ip_forwarded f realIp :
  nonempty f = true -> (forall x, In x (list_ascii_of_string f) -> x <> ","%char) ->
  client_ip (Some f) realIp = f.
Proof.
  intros Hne Hc. unfold client_ip, or_else. rewrite split_without_sep by exact Hc.
  cbn [hd]. rewrite Hne. reflexivity.
Qed.

Lemma consume_fresh_allowed now ip rl :
  JSMap.get ip (buckets rl) = None -> (1 <= maxTokens rl)%Q -> fst (consume now ip rl) = true.
Proof.
  intros Hget Hmx. unfold consume. rewrite (RateLimitRunFacts.current_bucket_fresh now ip rl Hget).
  assert (H : Qle_bool 1 (tokens (refill now rl (mkBucket (maxTokens rl) now))) = true).
  { apply Qle_bool_iff. unfold refill. cbn [tokens lastRefill].
    rewrite Z.sub_diag. apply Q.min_glb; [exact Hmx|].
    change (inject_Z 0) with 0%Q. lra. }
  rewrite H. reflexivity.
Qed.

End ClientIPFacts.

(** The route keys its rate limit on the [X-Forwarded-For] header as the
    client sends it, up to the first comma.  A request whose header is a
    non-empty value without a comma and with no bucket yet is never refused
    with 429, whatever the state of the other buckets: it spends a token of
    the bucket named by the header. *)
Theorem POST_forwarded_header_picks_bucket (env : Orchestrator.Env) (clk : Route.Clock)
  (srv : Route.Server) (f : string) (realIp : option string) (jb : option Route.RequestBody) :
  AnswerSchema.nonempty f = true ->
  (forall x, In x (list_ascii_of_string f) -> x <> ","%char) ->
  JSMap.get f (RateLimit.buckets (Route.rateLimiter_state srv)) = None ->
  (1 <= RateLimit.maxTokens (Route.rateLimiter_state srv))%Q ->
  let '(resp, evs, _) := Route.POST env clk srv (Route.mkRequest (Some f) realIp jb) in
  Route.status resp <> 429%Z /\ hd_error evs = Some (Route.ConsumeToken f).
Proof.
  intros Hne Hc Hget Hmx. unfold Route.POST. cbn [Route.x_forwarded_for Route.x_real_ip Route.json_body].
  rewrite ClientIPFacts.client_ip_forwarded by assumption.
  pose proof (ClientIPFacts.consume_fresh_allowed (Route.t_consume clk) f _ Hget Hmx) as Hok.
  destruct (RateLimit.consume (Route.t_consume clk) f (Route.rateLimiter_state srv)) as [allowed rl1].
  cbn [fst] in Hok. subst allowed. cbn [negb].
  destruct jb as [b|]; [|split; [discriminate|reflexivity]].
  destruct (Route.parse_request b) as [[[issue os] device]|]; [|split; [discriminate|reflexivity]].
  destruct (LRU.get _ _ _) as [[a|] c1]; [split; [discriminate|reflexivity]|].
  destruct (Orchestrator.answerIssue _ _ _ _); split; [discriminate|reflexivity|discriminate|reflexivity].
Qed.

Lemma POST_forwarded_header_picks_bucket_witness :
  let f := "198.51.100.9" in
  let req := Route.mkRequest (Some f) None (Route.json_body Route.sample_request) in
  AnswerSchema.nonempty f = true /\
  (forall x, In x (list_ascii_of_string f) -> x <> ","%char) /\
  JSMap.get f (RateLimit.buckets (Route.rateLimiter_state Route.drained_server)) = None /\
  (1 <= RateLimit.maxTokens (Route.rateLimiter_state Route.drained_server))%Q /\
  let '(resp, evs, _) := Route.POST Examples.env_tools_forever (Route.mkClock 2000 2000)
                            Route.drained_server req in
  Route.status resp <> 429%Z /\ hd_error evs = Some (Route.ConsumeToken f).
Proof.
  intros f req.
  assert (Hc : forall x, In x (list_ascii_of_string f) -> x <> ","%char).
  { intros x Hx. simpl in Hx. repeat (destruct Hx as [<-|Hx]; [discriminate|]). destruct Hx. }
  assert (Hm : (1 <= RateLimit.maxTokens (Route.rateLimiter_state Route.drained_server))%Q)
    by (apply Qle_bool_iff; reflexivity).
  split; [reflexivity|]. split; [exact Hc|]. split; [reflexivity|]. split; [exact Hm|].
  exact (POST_forwarded_header_picks_bucket Examples.env_tools_forever (Route.mkClock 2000 2000)
           Route.drained_server f None (Route.json_body Route.sample_request) eq_refl Hc eq_refl Hm).
Defined.

(* ------------------------------------------------------------------ *)
(** ** Clamping twice *)

Module ClampTwiceFacts.
Import JSString AnswerSchema.

Lemma prefix_upto_idem n s : prefix_upto n (prefix_upto n s) = prefix_upto n s.
Proof.
  apply StringFacts.prefix_upto_short. rewrite StringFacts.prefix_upto_length.
  apply Nat.le_min_l.
Qed.

Lemma map_idem {A} (f : A -> A) l : (forall x, f (f x) = f x) -> List.map f (List.map f l) = List.map f l.
Proof. intros H. rewrite map_map. apply map_ext. exact H. Qed.

Lemma clampStep_idem s : clampStep (clampStep s) = clampStep s.
Proof.
  destruct s as [t d o e sh]. unfold clampStep. cbn [step_title detail os est_minutes shell].
  rewrite !prefix_upto_idem. destruct sh as [l|]; [|reflexivity].
  cbn [option_map]. rewrite map_idem by apply prefix_upto_idem. reflexivity.
Qed.

Lemma clampDecision_idem d : clampDecision (clampDecision d) = clampDecision d.
Proof. destruct d. unfold clampDecision. cbn. rewrite !prefix_upto_idem. reflexivity. Qed.

Lemma clampDiagram_idem d : clampDiagram (clampDiagram d) = clampDiagram d.
Proof. destruct d. unfold clampDiagram. cbn. rewrite !prefix_upto_idem. reflexivity. Qed.

Lemma clampCitation_idem c : clampCitation (clampCitation c) = clampCitation c.
Proof. destruct c. unfold clampCitation. cbn. rewrite !prefix_upto_idem. reflexivity. Qed.

End ClampTwiceFacts.

(** [clampAnswer] is idempotent: clamping an answer it has already
    clamped returns that answer unchanged (and does not throw, since the
    clamped answer has all four optional arrays). *)
Theorem clampAnswer_idempotent (a a' : AnswerSchema.Answer) :
  AnswerSchema.clampAnswer a = Some a' -> AnswerSchema.clampAnswer a' = Some a'.
Proof.
  unfold AnswerSchema.clampAnswer at 1.
  destruct (AnswerSchema.prereqs a) as [ps|], (AnswerSchema.decision_tree a) as [dts|],
    (AnswerSchema.diagrams a) as [ds|], (AnswerSchema.warnings a) as [ws|];
    try discriminate.
  intros H. injection H as <-. unfold AnswerSchema.clampAnswer. cbn.
  rewrite !ClampTwiceFacts.prefix_upto_idem.
  rewrite !ClampTwiceFacts.map_idem by first [apply ClampTwiceFacts.prefix_upto_idem | apply ClampTwiceFacts.clampStep_idem
    | apply ClampTwiceFacts.clampDecision_idem | apply ClampTwiceFacts.clampDiagram_idem
    | apply ClampTwiceFacts.clampCitation_idem].
  reflexivity.
Qed.

Lemma clampAnswer_idempotent_witness :
  let a := AnswerSchema.mkAnswer (JSString.repeat_char 300 "a") "Summary" (Some []) []
             (Some []) (Some []) [] (Some []) in
  exists a', AnswerSchema.clampAnswer a = Some a' /\ AnswerSchema.clampAnswer a' = Some a'.
Proof.
  intros a. eexists. split; [reflexivity|].
  apply (clampAnswer_idempotent a). reflexivity.
Defined.
